(** * gh-down: incident aggregation and presentation pipeline

    A shallow embedding of the report builder ([report.go], [client.go],
    [render.go], [config.go]) and of the earlier single-file program kept in
    [client.go] (version 0.2.0: [run], [fetchJSON], [filterResolved], ...).

    The two programs declare functions of the same name; they live here in
    the modules [V3] (version 0.3.0, the report builder) and [V2]
    (version 0.2.0); [V1] holds [latestUpdate] of the first program, also
    kept in [client.go].  The Go standard library is a record of functions
    ([golib]); what the theorems need from [sort.Slice] is its documented
    contract ([sort_contract]).  [stdgo] is an executable instance used to run
    the model on fixtures. *)

From Stdlib Require Import ZArith String Ascii List Bool Lia Permutation Sorted.
From stdpp Require Import base gmap sets list strings.

Local Open Scope string_scope.
Local Open Scope list_scope.
Local Open Scope Z_scope.

(* ================================================================== *)
(** * Go values and the standard library                               *)
(* ================================================================== *)

(** [time.Time] as an instant: nanoseconds counted from the zero Time
    (January 1, year 1, 00:00:00 UTC).  [Equal], [After] and [Before]
    compare instants; [IsZero] holds of the zero instant only. *)
Definition Time : Type := Z.

Module time.
Definition zero : Time := 0.
Definition After (t u : Time) : bool := u <? t.
Definition Before (t u : Time) : bool := t <? u.
Definition Equal (t u : Time) : bool := t =? u.
Definition IsZero (t : Time) : bool := t =? 0.
Definition Add (t : Time) (d : Z) : Time := t + d.

Definition Nanosecond : Z := 1.
Definition Millisecond : Z := 1000000.
Definition Second : Z := 1000000000.
Definition Hour : Z := 3600 * Second.

Definition RFC3339 : string := "2006-01-02T15:04:05Z07:00".
Definition RFC3339Nano : string := "2006-01-02T15:04:05.999999999Z07:00".
End time.

(** The library functions the program calls.  [sort_Slice less l] is the
    content of the slice after [sort.Slice(l, less)]; the closure passed in
    the source reads the two elements at the indices it is given, so it is a
    comparison of elements. *)
Record golib : Type := GoLib {
  time_Parse : string -> string -> option Time;
  strings_ToLower : string -> string;
  strings_TrimSpace : string -> string;
  strings_EqualFold : string -> string -> bool;
  sort_Slice : forall A : Type, (A -> A -> bool) -> list A -> list A
}.

Arguments sort_Slice _ {A} _ _.

(** The parsers of the command line: [time.ParseDuration] (a duration in
    nanoseconds) and [strconv.Atoi]; [None] stands for an error. *)
Record parselib : Type := ParseLib {
  time_ParseDuration : string -> option Z;
  strconv_Atoi : string -> option Z
}.

(** [strings.HasPrefix] and [strings.TrimPrefix] work on bytes. *)
Definition strings_HasPrefix (s prefix : string) : bool := String.prefix prefix s.

Definition strings_TrimPrefix (s prefix : string) : string :=
  if strings_HasPrefix s prefix
  then String.substring (String.length prefix)
         (String.length s - String.length prefix)%nat s
  else s.

(** [less] is a strict weak ordering: what [sort.Slice] asks of it. *)
Record strict_weak {A : Type} (less : A -> A -> bool) : Prop := StrictWeak {
  sw_irrefl : forall a, less a a = false;
  sw_trans : forall a b c, less a b = true -> less b c = true -> less a c = true;
  sw_incomp : forall a b c, less a b = false -> less b c = false -> less a c = false
}.

(** A slice is sorted by [less] when no later element is less than an
    earlier one. *)
Definition sorted_by {A : Type} (less : A -> A -> bool) (l : list A) : Prop :=
  StronglySorted (fun a b => less b a = false) l.

(** The contract of [sort.Slice]: it only swaps elements, and for a strict
    weak ordering the result is sorted.  Nothing is said about the relative
    order of equal elements (the sort is not stable). *)
Record sort_contract (L : golib) : Prop := SortContract {
  sort_perm : forall (A : Type) (less : A -> A -> bool) (l : list A),
    Permutation l (sort_Slice L less l);
  sort_sorted : forall (A : Type) (less : A -> A -> bool) (l : list A),
    strict_weak less -> sorted_by less (sort_Slice L less l)
}.

(** Go's [<] on strings is the bytewise lexicographic order. *)
Definition string_lt (a b : string) : bool := String.ltb a b.

(* ------------------------------------------------------------------ *)
(** ** An executable instance                                          *)
(* ------------------------------------------------------------------ *)

Module Std.

(** [sort.Slice] on slices of at most 12 elements is insertion sort:
    each element moves left while it is less than its left neighbour.
    [sink less x rp] moves [x] into the prefix whose reverse is [rp]. *)
Fixpoint sink {A : Type} (less : A -> A -> bool) (x : A) (rp : list A) : list A :=
  match rp with
  | [] => [x]
  | y :: rp' => if less x y then y :: sink less x rp' else x :: rp
  end.

Definition insertionSort {A : Type} (less : A -> A -> bool) (l : list A) : list A :=
  rev (fold_left (fun rp x => sink less x rp) l []).

Definition is_upper (c : ascii) : bool :=
  let n := N_of_ascii c in ((65 <=? n) && (n <=? 90))%N.

Definition lower_ascii (c : ascii) : ascii :=
  if is_upper c then ascii_of_N (N_of_ascii c + 32) else c.

(** [strings.ToLower] on ASCII text. *)
Fixpoint toLower (s : string) : string :=
  match s with
  | EmptyString => EmptyString
  | String c s' => String (lower_ascii c) (toLower s')
  end.

Definition is_space (c : ascii) : bool :=
  let n := N_of_ascii c in (((9 <=? n) && (n <=? 13)) || (n =? 32))%N.

Fixpoint trimLeft (s : string) : string :=
  match s with
  | EmptyString => EmptyString
  | String c s' => if is_space c then trimLeft s' else s
  end.

Fixpoint trimRight (s : string) : string :=
  match s with
  | EmptyString => EmptyString
  | String c s' =>
      match trimRight s' with
      | EmptyString => if is_space c then EmptyString else String c EmptyString
      | t => String c t
      end
  end.

(** [strings.TrimSpace] on ASCII text. *)
Definition trimSpace (s : string) : string := trimRight (trimLeft s).

(** [strings.EqualFold] on ASCII text. *)
Definition equalFold (a b : string) : bool := String.eqb (toLower a) (toLower b).

Definition digit (c : ascii) : option Z :=
  let n := Z.of_N (N_of_ascii c) in
  if (48 <=? n) && (n <=? 57) then Some (n - 48) else None.

Definition num2 (a b : ascii) : option Z :=
  match digit a, digit b with
  | Some x, Some y => Some (10 * x + y)
  | _, _ => None
  end.

Definition num4 (a b c d : ascii) : option Z :=
  match num2 a b, num2 c d with
  | Some x, Some y => Some (100 * x + y)
  | _, _ => None
  end.

Definition isLeap (y : Z) : bool :=
  (y mod 4 =? 0) && (negb (y mod 100 =? 0) || (y mod 400 =? 0)).

Definition daysIn (m y : Z) : Z :=
  if m =? 2 then (if isLeap y then 29 else 28)
  else if (m =? 4) || (m =? 6) || (m =? 9) || (m =? 11) then 30 else 31.

Fixpoint daysBeforeMonth (fuel : nat) (m y : Z) : Z :=
  match fuel with
  | O => 0
  | S k => if m <=? 1 then 0 else daysIn (m - 1) y + daysBeforeMonth k (m - 1) y
  end.

Definition daysBeforeYear (y : Z) : Z :=
  365 * (y - 1) + (y - 1) / 4 - (y - 1) / 100 + (y - 1) / 400.

Definition civil (y mo d h mi s : Z) : option Time :=
  if (1 <=? mo) && (mo <=? 12) && (1 <=? d) && (d <=? daysIn mo y)
     && (h <? 24) && (mi <? 60) && (s <? 60)
  then Some ((((daysBeforeYear y + daysBeforeMonth 12 mo y + (d - 1)) * 86400)
              + h * 3600 + mi * 60 + s) * time.Second)
  else None.

(** [time.Parse] with an RFC 3339 layout, on the whole-second UTC form
    [YYYY-MM-DDTHH:MM:SSZ]; every other text is refused by this instance. *)
Definition parseUTC (raw : string) : option Time :=
  match list_ascii_of_string raw with
  | [y1; y2; y3; y4; "-"; m1; m2; "-"; d1; d2; "T";
     h1; h2; ":"; i1; i2; ":"; s1; s2; "Z"]%char =>
      match num4 y1 y2 y3 y4, num2 m1 m2, num2 d1 d2,
            num2 h1 h2, num2 i1 i2, num2 s1 s2 with
      | Some y, Some mo, Some d, Some h, Some mi, Some s => civil y mo d h mi s
      | _, _, _, _, _, _ => None
      end
  | _ => None
  end.

Definition parse (layout raw : string) : option Time := parseUTC raw.

(** Decimal digits, most significant first. *)
Fixpoint digits (acc : Z) (s : string) : option Z :=
  match s with
  | EmptyString => Some acc
  | String c s' =>
      match digit c with
      | Some d => digits (10 * acc + d) s'
      | None => None
      end
  end.

(** [strconv.Atoi] on an optional sign followed by decimal digits. *)
Definition atoi (s : string) : option Z :=
  match s with
  | EmptyString => None
  | String "-" EmptyString => None
  | String "+" EmptyString => None
  | String "-" s' => option_map Z.opp (digits 0 s')
  | String "+" s' => digits 0 s'
  | _ => digits 0 s
  end.

(** [time.ParseDuration] on whole seconds and minutes, [15s] or [1m];
    every other text is refused by this instance. *)
Definition parseDuration (s : string) : option Z :=
  match rev (list_ascii_of_string s) with
  | "s"%char :: d :: ds =>
      option_map (Z.mul time.Second) (digits 0 (string_of_list_ascii (rev (d :: ds))))
  | "m"%char :: d :: ds =>
      option_map (Z.mul (60 * time.Second))
        (digits 0 (string_of_list_ascii (rev (d :: ds))))
  | _ => None
  end.

End Std.

Definition stdgo : golib :=
  GoLib Std.parse Std.toLower Std.trimSpace Std.equalFold (@Std.insertionSort).

Definition stdparse : parselib := ParseLib Std.parseDuration Std.atoi.

(* ================================================================== *)
(** * The data model ([client.go])                                     *)
(* ================================================================== *)

Record component : Type := Component {
  comp_Name : string;
  comp_Status : string;
  comp_Group : bool
}.

Record incidentUpdate : Type := IncidentUpdate {
  upd_Status : string;
  upd_Body : string;
  upd_CreatedAt : string
}.

Record incident : Type := Incident {
  inc_ID : string;
  inc_Name : string;
  inc_Status : string;
  inc_Impact : string;
  inc_Shortlink : string;
  inc_CreatedAt : string;
  inc_UpdatedAt : string;
  inc_IncidentUpdates : list incidentUpdate
}.

(** Go errors: a message, possibly wrapping a cause ([%w]). *)
Inductive error : Type :=
| ErrNew (msg : string)
| ErrWrap (msg : string) (cause : error).

Inductive result (A : Type) : Type :=
| Ok (a : A)
| Err (e : error).

Arguments Ok {A} a.
Arguments Err {A} e.

(** The three endpoints of the status API. *)
Inductive endpoint : Type := componentsURL | unresolvedURL | incidentsURL.

(** What the outside world answers during one run: the outcome of the GET
    on each endpoint (decoded payload or error) and the reading of the
    clock. *)
Record world : Type := World {
  get_components : result (list component);
  get_unresolved : result (list incident);
  get_incidents : result (list incident);
  time_Now : Time
}.

(** Computations that issue GETs: the log of the endpoints fetched so far is
    threaded through, an error ends the computation. *)
Definition io (A : Type) : Type := list endpoint -> result A * list endpoint.

Definition ret {A : Type} (a : A) : io A := fun log => (Ok a, log).
Definition fail {A : Type} (e : error) : io A := fun log => (Err e, log).
Definition bind {A B : Type} (m : io A) (k : A -> io B) : io B :=
  fun log => match m log with
             | (Ok a, log') => k a log'
             | (Err e, log') => (Err e, log')
             end.

#[global] Instance io_ret : MRet io := @ret.
#[global] Instance io_bind : MBind io := fun A B k m => bind m k.

(** [c.get(ctx, url, &payload)] followed by [fmt.Errorf(context, err)] on
    failure. *)
Definition get {A : Type} (url : endpoint) (answer : result A) (context : string) : io A :=
  fun log => match answer with
             | Ok a => (Ok a, log ++ [url])
             | Err e => (Err (ErrWrap context e), log ++ [url])
             end.

Definition run_io {A : Type} (m : io A) : result A * list endpoint := m [].

(* ================================================================== *)
(** * Version 0.3.0: [config.go], [client.go], [report.go], [render.go] *)
(* ================================================================== *)

Module V3.

Definition outputText : string := "text".
Definition outputJSON : string := "json".
Definition referenceComponent : string :=
  "Visit www.githubstatus.com for more information".
Definition resolvedLookback : Z := 7 * 24 * time.Hour.
Definition maxIncidentUpdates : nat := 3.

Record config : Type := Config {
  showDetails : bool;
  showResolved : bool;
  showVersion : bool;
  output : string;
  timeout : Z
}.

Record report : Type := Report {
  rep_Components : list component;
  rep_Active : list incident;
  rep_Resolved : list incident
}.

(** Backing arrays of [[]incident] slices, by address. *)
Definition heap : Type := gmap nat (list incident).

Section Program.
Context (L : golib).

(** [client.go], [parseTime]. *)
Definition parseTime (raw : string) : option Time :=
  if String.eqb raw "" then None
  else match time_Parse L time.RFC3339 raw with
       | Some t => Some t
       | None =>
           match time_Parse L time.RFC3339Nano raw with
           | Some t => Some t
           | None => None
           end
       end.

(** The loop of [incidentTime] over the updates, in feed order. *)
Fixpoint firstParsed (updates : list incidentUpdate) : option Time :=
  match updates with
  | [] => None
  | upd :: rest =>
      match parseTime (upd_CreatedAt upd) with
      | Some t => Some t
      | None => firstParsed rest
      end
  end.

(** [client.go], [incidentTime]. *)
Definition incidentTime (inc : incident) : Time :=
  match parseTime (inc_UpdatedAt inc) with
  | Some t => t
  | None =>
      if (length (inc_IncidentUpdates inc) =? 0)%nat then
        match parseTime (inc_CreatedAt inc) with
        | Some t => t
        | None => time.zero
        end
      else
        match firstParsed (inc_IncidentUpdates inc) with
        | Some t => t
        | None => time.zero
        end
  end.

(** [report.go], [impactOrder]. *)
Definition impactOrder (impact : string) : Z :=
  let s := strings_ToLower L (strings_TrimSpace L impact) in
  if String.eqb s "critical" then 0
  else if String.eqb s "major" then 1
  else if String.eqb s "minor" then 2
  else if String.eqb s "none" then 3
  else 4.

(** The closure given to [sort.Slice] in [sortIncidents]. *)
Definition incident_less (a b : incident) : bool :=
  let ti := incidentTime a in
  let tj := incidentTime b in
  if negb (time.Equal ti tj) then time.After ti tj
  else
    let impactCompare := impactOrder (inc_Impact a) - impactOrder (inc_Impact b) in
    if negb (impactCompare =? 0) then impactCompare <? 0
    else string_lt (strings_ToLower L (inc_Name a)) (strings_ToLower L (inc_Name b)).

(** [report.go], [sortIncidents]: the content of the slice it returns. *)
Definition sortIncidents (incidents : list incident) : list incident :=
  sort_Slice L incident_less incidents.

(** [sortIncidents] on the heap: [make] a new array, [copy] the argument
    into it, [sort.Slice] it in place, return it. *)
Definition sortIncidents_heap (h : heap) (incidents : nat) : heap * nat :=
  let src := default [] (h !! incidents) in
  let out := fresh (dom h) in
  let h1 := <[out := replicate (length src) (Incident "" "" "" "" "" "" "" [])]> h in
  let h2 := <[out := take (length (default [] (h1 !! out))) src]> h1 in
  let h3 := <[out := sort_Slice L incident_less (default [] (h2 !! out))]> h2 in
  (h3, out).

(** The closure given to [sort.Slice] in [filterComponents]. *)
Definition component_less (a b : component) : bool :=
  string_lt (strings_ToLower L (comp_Name a)) (strings_ToLower L (comp_Name b)).

(** The components [filterComponents] keeps. *)
Definition keep_component (comp : component) : bool :=
  if comp_Group comp then false
  else if strings_EqualFold L (comp_Name comp) referenceComponent then false
  else true.

(** [report.go], [filterComponents]. *)
Definition filterComponents (components : list component) : list component :=
  sort_Slice L component_less (List.filter keep_component components).

(** One iteration of the loop of [RecentResolvedIncidents], on the slice
    [results] and the map [seen] of the ids met so far. *)
Definition resolvedStep (cutoff : Time) (st : list incident * gset string)
    (inc : incident) : list incident * gset string :=
  let (results, seen) := st in
  if negb (strings_EqualFold L (inc_Status inc) "resolved") then st
  else if negb (String.eqb (inc_ID inc) "") && bool_decide (inc_ID inc ∈ seen) then st
  else
    let seen' := if negb (String.eqb (inc_ID inc) "")
                 then {[ inc_ID inc ]} ∪ seen else seen in
    let t := incidentTime inc in
    if negb (time.IsZero t) && time.Before t cutoff then (results, seen')
    else (results ++ [inc], seen').

(** The filter of [RecentResolvedIncidents] on a decoded payload. *)
Definition recentResolved (now : Time) (lookback : Z)
    (incidents : list incident) : list incident :=
  let cutoff := time.Add now (- lookback) in
  fst (fold_left (resolvedStep cutoff) incidents ([], ∅)).

(** [render.go], [summarizeUpdates]. *)
Definition summarizeUpdates (updates : list incidentUpdate) : list incidentUpdate :=
  if (length updates <=? maxIncidentUpdates)%nat then updates
  else take maxIncidentUpdates updates.

Section Client.
Context (w : world).

(** [client.go], the three operations of [statusClient]. *)
Definition Components : io (list component) :=
  get componentsURL (get_components w) "fetch components".

Definition ActiveIncidents : io (list incident) :=
  get unresolvedURL (get_unresolved w) "fetch active incidents".

Definition RecentResolvedIncidents (lookback : Z) : io (list incident) :=
  payload ← get incidentsURL (get_incidents w) "fetch resolved incidents";
  mret (recentResolved (time_Now w) lookback payload).

(** [report.go], [buildReport]. *)
Definition buildReport (cfg : config) : io report :=
  comps ← Components;
  let r := Report (filterComponents comps) [] [] in
  if (length (rep_Components r) =? 0)%nat then
    fail (ErrNew "github status returned no components")
  else
    let includeActive := showDetails cfg || String.eqb (output cfg) outputJSON in
    let includeResolved := showResolved cfg || String.eqb (output cfg) outputJSON in
    r ← (if includeActive then
           active ← ActiveIncidents;
           mret (Report (rep_Components r) (sortIncidents active) (rep_Resolved r))
         else mret r);
    r ← (if includeResolved then
           resolved ← RecentResolvedIncidents resolvedLookback;
           mret (Report (rep_Components r) (rep_Active r) (sortIncidents resolved))
         else mret r);
    mret r.
End Client.
End Program.

End V3.

(* ================================================================== *)
(** * Version 0.2.0: the single-file program in [client.go]            *)
(* ================================================================== *)

Module V2.

Definition maxIncidentUpdates : nat := 3.
Definition maxResolvedIncidents : nat := 5.
Definition retryBackoffInitial : Z := 300 * time.Millisecond.
Definition retryBackoffMax : Z := 2 * time.Second.
Definition StatusOK : Z := 200.
Definition StatusTooManyRequests : Z := 429.

Section Program.
Context (L : golib).

(** [parseTime]. *)
Definition parseTime (raw : string) : option Time :=
  if String.eqb raw "" then None
  else match time_Parse L time.RFC3339 raw with
       | Some t => Some t
       | None =>
           match time_Parse L time.RFC3339Nano raw with
           | Some t => Some t
           | None => None
           end
       end.

(** [ti, _ := parseTime(raw)]: the Time returned with [false] is the
    zero Time. *)
Definition parsedOrZero (raw : string) : Time :=
  match parseTime raw with
  | Some t => t
  | None => time.zero
  end.

(** The closure given to [sort.Slice] in [sortIncidentUpdates]. *)
Definition update_less (a b : incidentUpdate) : bool :=
  let ti := parsedOrZero (upd_CreatedAt a) in
  let tj := parsedOrZero (upd_CreatedAt b) in
  time.After ti tj.

(** [sortIncidentUpdates]. *)
Definition sortIncidentUpdates (updates : list incidentUpdate) : list incidentUpdate :=
  sort_Slice L update_less updates.

(** [summarizeUpdates]. *)
Definition summarizeUpdates (updates : list incidentUpdate) : list incidentUpdate :=
  let sorted := sortIncidentUpdates updates in
  if (maxIncidentUpdates <? length sorted)%nat then take maxIncidentUpdates sorted
  else sorted.

(** [impactOrder]. *)
Definition impactOrder (impact : string) : Z :=
  let s := strings_ToLower L (strings_TrimSpace L impact) in
  if String.eqb s "critical" then 0
  else if String.eqb s "major" then 1
  else if String.eqb s "minor" then 2
  else if String.eqb s "none" then 3
  else 4.

(** The loop of [incidentTime] over the sorted updates. *)
Fixpoint firstParsed (updates : list incidentUpdate) : option Time :=
  match updates with
  | [] => None
  | update :: rest =>
      match parseTime (upd_CreatedAt update) with
      | Some t => Some t
      | None => firstParsed rest
      end
  end.

(** [incidentTime]. *)
Definition incidentTime (inc : incident) : Time :=
  match parseTime (inc_UpdatedAt inc) with
  | Some t => t
  | None =>
      if (length (inc_IncidentUpdates inc) =? 0)%nat then
        match parseTime (inc_CreatedAt inc) with
        | Some t => t
        | None => time.zero
        end
      else
        match firstParsed (sortIncidentUpdates (inc_IncidentUpdates inc)) with
        | Some t => t
        | None => time.zero
        end
  end.

(** The closure given to [sort.Slice] in [sortIncidents]. *)
Definition incident_less (a b : incident) : bool :=
  let ri := impactOrder (inc_Impact a) in
  let rj := impactOrder (inc_Impact b) in
  if negb (ri =? rj) then ri <? rj
  else
    let ti := incidentTime a in
    let tj := incidentTime b in
    if negb (time.Equal ti tj) then time.After ti tj
    else string_lt (strings_ToLower L (inc_Name a)) (strings_ToLower L (inc_Name b)).

(** [sortIncidents]. *)
Definition sortIncidents (incidents : list incident) : list incident :=
  sort_Slice L incident_less incidents.

(** The loop of [filterResolved], on the slice [resolved] and the map
    [seen]; it ends with the list or at the [break]. *)
Fixpoint filterResolvedLoop (resolved : list incident) (seen : gset string)
    (incidents : list incident) : list incident :=
  match incidents with
  | [] => resolved
  | inc :: rest =>
      if negb (strings_EqualFold L (inc_Status inc) "resolved") then
        filterResolvedLoop resolved seen rest
      else if negb (String.eqb (inc_ID inc) "") && bool_decide (inc_ID inc ∈ seen) then
        filterResolvedLoop resolved seen rest
      else
        let seen' := if negb (String.eqb (inc_ID inc) "")
                     then {[ inc_ID inc ]} ∪ seen else seen in
        let resolved' := resolved ++ [inc] in
        if (maxResolvedIncidents <=? length resolved')%nat then resolved'
        else filterResolvedLoop resolved' seen' rest
  end.

(** [filterResolved]. *)
Definition filterResolved (incidents : list incident) : list incident :=
  filterResolvedLoop [] ∅ incidents.

End Program.

(** ** The bounded-retry fetch *)

(** The outcome of [client.Do]: an error, or a response with its status
    code and whether its body decodes into the target. *)
Inductive doResult : Type :=
| DoErr (msg : string)
| DoResp (StatusCode : Z) (decodes : bool).

(** What the network and the context do during one [fetchJSON], by
    attempt: whether the request can be built, what [client.Do] returns,
    and whether the backoff timer fires before the context is done. *)
Record net : Type := Net {
  newRequest_ok : Z -> bool;
  client_Do : Z -> doResult;
  timer_first : Z -> Z -> bool
}.

(** What [fetchJSON] does that is visible outside: requests and sleeps. *)
Inductive event : Type :=
| Request (attempt : Z)
| Sleep (attempt : Z) (backoff : Z).

(** [shouldRetryStatus]. *)
Definition shouldRetryStatus (status : Z) : bool :=
  if status =? StatusTooManyRequests then true
  else (status >=? 500) && (status <=? 599).

(** 64-bit two's complement wrap-around of [time.Duration] arithmetic. *)
Definition wrap64 (x : Z) : Z := (x + 2 ^ 63) mod 2 ^ 64 - 2 ^ 63.

(** The duration [waitForRetry] sleeps for. *)
Definition backoffFor (attempt : Z) : Z :=
  let backoff := wrap64 (retryBackoffInitial * wrap64 (Z.shiftl 1 (attempt - 1))) in
  if backoff >? retryBackoffMax then retryBackoffMax else backoff.

(** [waitForRetry]: [true] when the timer fires, [false] when the context
    is done first. *)
Definition waitForRetry (n : net) (attempt : Z) : bool :=
  timer_first n attempt (backoffFor attempt).

(** The function literal called in [fetchJSON] on a response; its result
    is the value it leaves in [lastErr].  Its [return] leaves the literal,
    not [fetchJSON]. *)
Definition onResponse (attempts attempt : Z) (StatusCode : Z) (decodes : bool)
    : option error :=
  if negb (StatusCode =? StatusOK) then
    let lastErr := Some (ErrNew "github status: unexpected status") in
    if negb (shouldRetryStatus StatusCode) || (attempt =? attempts) then lastErr
    else lastErr
  else if negb decodes then Some (ErrNew "decode response")
  else None.

(** The [for] loop of [fetchJSON], from [attempt] on; [fuel] bounds the
    number of iterations. *)
Fixpoint attemptLoop (n : net) (fuel : nat) (attempts attempt : Z)
    (lastErr : option error) : option error * list event :=
  match fuel with
  | O => (lastErr, [])
  | S fuel' =>
      if negb (attempt <=? attempts) then (lastErr, [])
      else if negb (newRequest_ok n attempt) then (Some (ErrNew "create request"), [])
      else
        let lastErr :=
          match client_Do n attempt with
          | DoErr msg => Some (ErrWrap "fetch" (ErrNew msg))
          | DoResp code decodes => onResponse attempts attempt code decodes
          end in
        match lastErr with
        | None => (None, [Request attempt])
        | Some _ =>
            if attempt =? attempts then (lastErr, [Request attempt])
            else if negb (waitForRetry n attempt) then
              (lastErr, [Request attempt; Sleep attempt (backoffFor attempt)])
            else
              let (r, tr) := attemptLoop n fuel' attempts (attempt + 1) lastErr in
              (r, Request attempt :: Sleep attempt (backoffFor attempt) :: tr)
        end
  end.

(** [fetchJSON]: the error it returns ([None] for [nil]) and its trace. *)
Definition fetchJSON (n : net) (retries : Z) : option error * list event :=
  let attempts := if retries <? 1 then 1 else retries in
  attemptLoop n (Z.to_nat attempts) attempts 1 None.

(** ** The command line *)

Definition version : string := "0.2.0".
Definition defaultTimeout : Z := 10 * time.Second.
Definition defaultRetries : Z := 1.
Definition detailsArg : string := "details".
Definition timeoutArg : string := "--timeout".
Definition retriesArg : string := "--retries".
Definition jsonArg : string := "--json".
Definition resolvedArg : string := "--resolved".
Definition versionArg : string := "--version".
Definition outputText : string := "text".
Definition outputJSON : string := "json".
Definition referenceComponent : string :=
  "Visit www.githubstatus.com for more information".

Record options : Type := Options {
  showDetails : bool;
  showResolved : bool;
  timeout : Z;
  retries : Z;
  outputFormat : string;
  printVersion : bool
}.

Record report : Type := Report {
  Components : list component;
  ActiveIncidents : list incident;
  ResolvedIncidents : list incident
}.

Definition errHelp : error := ErrNew "help requested".

(** What [errors.Is] and [errors.As] find in an error: whether it is
    [context.DeadlineExceeded] or [context.Canceled], whether it holds a
    [net.Error] that timed out, the offset of a [*json.SyntaxError], the
    field of a [*json.UnmarshalTypeError]. *)
Record errlib : Type := ErrLib {
  is_DeadlineExceeded : error -> bool;
  is_Canceled : error -> bool;
  as_netTimeout : error -> bool;
  as_SyntaxError : error -> option Z;
  as_UnmarshalTypeError : error -> option string
}.

(** The decoded payloads of the three endpoints and the network behind
    each of them. *)
Record site : Type := Site {
  status_net : net;
  status_payload : list component;
  unresolved_net : net;
  unresolved_payload : list incident;
  all_net : net;
  all_payload : list incident
}.

(** What [run] hands to the renderer. *)
Inductive rendering : Type :=
| RenderJSON (data : report)
| RenderText (data : report) (opts : options).

Section Run.
Context (L : golib) (P : parselib) (E : errlib).

(** [setTimeout]: the options after the call and the error returned.  The
    texts of the errors are abridged. *)
Definition setTimeout (opts : options) (raw : string) : options * option error :=
  match time_ParseDuration P raw with
  | None => (opts, Some (ErrNew "invalid timeout"))
  | Some dur =>
      if dur <=? 0 then (opts, Some (ErrNew "timeout must be greater than zero"))
      else (Options (showDetails opts) (showResolved opts) dur (retries opts)
              (outputFormat opts) (printVersion opts), None)
  end.

(** [setRetries]. *)
Definition setRetries (opts : options) (raw : string) : options * option error :=
  match strconv_Atoi P raw with
  | None => (opts, Some (ErrNew "invalid retry count"))
  | Some value =>
      if value <=? 0 then (opts, Some (ErrNew "retries must be greater than zero"))
      else (Options (showDetails opts) (showResolved opts) (timeout opts) value
              (outputFormat opts) (printVersion opts), None)
  end.

(** The [for] loop of [parseArgs] over the arguments left. *)
Fixpoint parseArgsLoop (opts : options) (args : list string) : options * option error :=
  match args with
  | [] => (opts, None)
  | arg :: rest =>
      if String.eqb arg "--details" || strings_EqualFold L arg detailsArg then
        parseArgsLoop (Options true (showResolved opts) (timeout opts) (retries opts)
                         (outputFormat opts) (printVersion opts)) rest
      else if String.eqb arg resolvedArg then
        parseArgsLoop (Options (showDetails opts) true (timeout opts) (retries opts)
                         (outputFormat opts) (printVersion opts)) rest
      else if String.eqb arg jsonArg then
        parseArgsLoop (Options (showDetails opts) (showResolved opts) (timeout opts)
                         (retries opts) outputJSON (printVersion opts)) rest
      else if String.eqb arg versionArg then
        parseArgsLoop (Options (showDetails opts) (showResolved opts) (timeout opts)
                         (retries opts) (outputFormat opts) true) rest
      else if String.eqb arg "-h" || String.eqb arg "--help" then
        (opts, Some errHelp)
      else if String.eqb arg timeoutArg then
        match rest with
        | [] => (opts, Some (ErrNew "--timeout requires a duration value (e.g. 15s)"))
        | value :: rest' =>
            match setTimeout opts value with
            | (opts', None) => parseArgsLoop opts' rest'
            | (opts', Some err) => (opts', Some err)
            end
        end
      else if strings_HasPrefix arg "--timeout=" then
        match setTimeout opts (strings_TrimPrefix arg "--timeout=") with
        | (opts', None) => parseArgsLoop opts' rest
        | (opts', Some err) => (opts', Some err)
        end
      else if String.eqb arg retriesArg then
        match rest with
        | [] => (opts, Some (ErrNew "--retries requires an integer value (e.g. 3)"))
        | value :: rest' =>
            match setRetries opts value with
            | (opts', None) => parseArgsLoop opts' rest'
            | (opts', Some err) => (opts', Some err)
            end
        end
      else if strings_HasPrefix arg "--retries=" then
        match setRetries opts (strings_TrimPrefix arg "--retries=") with
        | (opts', None) => parseArgsLoop opts' rest
        | (opts', Some err) => (opts', Some err)
        end
      else (opts, Some (ErrNew "unknown argument"))
  end.

(** [parseArgs]. *)
Definition parseArgs (args : list string) : options * option error :=
  let opts := Options false false defaultTimeout defaultRetries outputText false in
  if (length args =? 0)%nat then (opts, None)
  else parseArgsLoop opts args.

(** [isReferenceComponent]. *)
Definition isReferenceComponent (name : string) : bool :=
  strings_EqualFold L name referenceComponent.

(** The closure given to [sort.Slice] in [filterComponents]. *)
Definition component_less (a b : component) : bool :=
  string_lt (strings_ToLower L (comp_Name a)) (strings_ToLower L (comp_Name b)).

(** [filterComponents]. *)
Definition filterComponents (components : list component) : list component :=
  sort_Slice L component_less
    (List.filter (fun comp => negb (comp_Group comp || isReferenceComponent (comp_Name comp)))
       components).

(** [classifyError]; [None] is [nil].  The texts of the errors are
    abridged. *)
Definition classifyError (err : option error) (opts : options) : option error :=
  match err with
  | None => None
  | Some e =>
      if is_DeadlineExceeded E e || is_Canceled E e then
        Some (ErrNew "request timed out; try increasing --timeout or --retries")
      else if as_netTimeout E e then
        Some (ErrNew "request timed out; try increasing --timeout or --retries")
      else
        match as_SyntaxError E e with
        | Some offset => Some (ErrNew "github status: invalid JSON response")
        | None =>
            match as_UnmarshalTypeError E e with
            | Some field => Some (ErrNew "github status: unexpected data shape")
            | None => Some e
            end
        end
  end.

Section Site.
Context (w : site).

(** [fetchComponents] and [fetchIncidents]: [fetchJSON] on the endpoint,
    then the decoded payload. *)
Definition fetchComponents (retries : Z) : io (list component) :=
  fun log =>
    match fst (fetchJSON (status_net w) retries) with
    | Some err => (Err err, log ++ [componentsURL])
    | None => (Ok (status_payload w), log ++ [componentsURL])
    end.

Definition fetchIncidents (url : endpoint) (retries : Z) : io (list incident) :=
  fun log =>
    let (n, payload) :=
      match url with
      | unresolvedURL => (unresolved_net w, unresolved_payload w)
      | _ => (all_net w, all_payload w)
      end in
    match fst (fetchJSON n retries) with
    | Some err => (Err err, log ++ [url])
    | None => (Ok payload, log ++ [url])
    end.

(** [return classifyError(err, opts)] in [run]: the error [run] returns,
    or, were it [nil], a return without rendering. *)
Definition returnClassified {A : Type} (err : error) (opts : options)
    : io (A + unit) :=
  match classifyError (Some err) opts with
  | Some err' => fail err'
  | None => mret (inr tt)
  end.

(** [run]: the error it returns, or what it renders ([inl]); [inr] is a
    return of [nil] without rendering. *)
Definition run (opts : options) : io (rendering + unit) :=
  fun log =>
    match fetchComponents (retries opts) log with
    | (Err err, log) => returnClassified err opts log
    | (Ok components, log) =>
        let data := Report (filterComponents components) [] [] in
        if (length (Components data) =? 0)%nat then
          fail (ErrNew "github status: no components returned") log
        else
          let needsIncidentData :=
            showDetails opts || showResolved opts ||
            String.eqb (outputFormat opts) outputJSON in
          let render (data : report) : io (rendering + unit) :=
            if String.eqb (outputFormat opts) outputJSON
            then mret (inl (RenderJSON data))
            else mret (inl (RenderText data opts)) in
          if needsIncidentData then
            match fetchIncidents unresolvedURL (retries opts) log with
            | (Err err, log) => returnClassified err opts log
            | (Ok active, log) =>
                let data := Report (Components data) (sortIncidents L active)
                              (ResolvedIncidents data) in
                if showResolved opts then
                  match fetchIncidents incidentsURL (retries opts) log with
                  | (Err err, log) => returnClassified err opts log
                  | (Ok all, log) =>
                      render (Report (Components data) (ActiveIncidents data)
                                (filterResolved L (sortIncidents L all))) log
                  end
                else render data log
            end
          else render data log
    end.

End Site.
End Run.

End V2.


(* ================================================================== *)
(** * The first program in [client.go]: one file, no flags             *)
(* ================================================================== *)

Module V1.

Section Program.
Context (L : golib).

(** [parseTime]. *)
Definition parseTime (raw : string) : option Time :=
  if String.eqb raw "" then None
  else match time_Parse L time.RFC3339 raw with
       | Some t => Some t
       | None =>
           match time_Parse L time.RFC3339Nano raw with
           | Some t => Some t
           | None => None
           end
       end.

(** The loop of [latestUpdate] over [updates[1:]]. *)
Fixpoint latestLoop (latest : incidentUpdate) (latestTime : Time)
    (updates : list incidentUpdate) : incidentUpdate :=
  match updates with
  | [] => latest
  | upd :: rest =>
      match parseTime (upd_CreatedAt upd) with
      | Some t =>
          if time.After t latestTime then latestLoop upd t rest
          else latestLoop latest latestTime rest
      | None => latestLoop latest latestTime rest
      end
  end.

(** [latestUpdate]. *)
Definition latestUpdate (updates : list incidentUpdate) : incidentUpdate :=
  match updates with
  | [] => IncidentUpdate "" "" ""
  | first :: rest =>
      let latestTime :=
        match parseTime (upd_CreatedAt first) with
        | Some t => t
        | None => time.zero
        end in
      latestLoop first latestTime rest
  end.

End Program.

End V1.

(* ================================================================== *)
(** * Vocabulary of the statements                                     *)
(* ================================================================== *)

(** Compare an integer key first, [rest] on equal keys. *)
Definition by_key {A : Type} (k : A -> Z) (rest : A -> A -> bool) (a b : A) : bool :=
  if negb (k a =? k b) then k a <? k b else rest a b.

(** A list that, read from its end, never rises. *)
Definition rsorted {A : Type} (less : A -> A -> bool) (rp : list A) : Prop :=
  StronglySorted (fun a b => less a b = false) rp.

(** The keys of the ranking. *)
Definition lowerName (L : golib) (inc : incident) : string :=
  strings_ToLower L (inc_Name inc).
Definition rank3 (L : golib) (inc : incident) : Z := V3.impactOrder L (inc_Impact inc).
Definition rank2 (L : golib) (inc : incident) : Z := V2.impactOrder L (inc_Impact inc).
Definition name_less (L : golib) (a b : incident) : bool :=
  string_lt (lowerName L a) (lowerName L b).

(** The ranking chain in the words of the specification, over the three
    keys of an incident (known timestamp, impact rank, lower-cased name):
    [a] may stand before [b] when [a] is more recent, or as recent and of
    lower rank, or as recent, of the same rank and not after [b] by name. *)
Definition time_rank_name (known rank : incident -> Z) (name : incident -> string)
    (a b : incident) : Prop :=
  known b < known a \/
  (known a = known b /\
   (rank a < rank b \/
    (rank a = rank b /\ String.leb (name a) (name b) = true))).

(** The chain with the impact rank first: rank ascending, then timestamp
    descending, then name ascending. *)
Definition rank_time_name (known rank : incident -> Z) (name : incident -> string)
    (a b : incident) : Prop :=
  rank a < rank b \/
  (rank a = rank b /\
   (known b < known a \/
    (known a = known b /\ String.leb (name a) (name b) = true))).

(** A total order of the incidents' key triples: reflexive, transitive,
    any two incidents comparable, and only incidents with the same three
    keys stand each before the other. *)
Record total_on_keys (known rank : incident -> Z) (name : incident -> string)
    (le : incident -> incident -> Prop) : Prop := TotalOnKeys {
  tk_refl : forall a, le a a;
  tk_trans : forall a b c, le a b -> le b c -> le a c;
  tk_total : forall a b, le a b \/ le b a;
  tk_antisym : forall a b, le a b -> le b a ->
    known a = known b /\ rank a = rank b /\ name a = name b
}.

(** The impact table, on the trimmed, lower-cased text. *)
Definition impact_table (L : golib) (order : string -> Z) : Prop :=
  forall impact : string,
    let s := strings_ToLower L (strings_TrimSpace L impact) in
    (s = "critical" -> order impact = 0) /\
    (s = "major" -> order impact = 1) /\
    (s = "minor" -> order impact = 2) /\
    (s = "none" -> order impact = 3) /\
    (s <> "critical" -> s <> "major" -> s <> "minor" -> s <> "none" ->
     order impact = 4).

(** The newest of the update timestamps that parse, if any does. *)
Fixpoint newestParsed (parse : string -> option Time)
    (updates : list incidentUpdate) : option Time :=
  match updates with
  | [] => None
  | u :: rest =>
      match parse (upd_CreatedAt u), newestParsed parse rest with
      | Some t, Some t' => Some (Z.max t t')
      | Some t, None => Some t
      | None, r => r
      end
  end.

(** The known timestamp in the words of the specification: [updatedAt] if
    it parses; else the newest update timestamp that parses; else
    [createdAt]; else the zero Time. *)
Definition knownTimestamp (parse : string -> option Time) (inc : incident) : Time :=
  match parse (inc_UpdatedAt inc) with
  | Some t => t
  | None =>
      match newestParsed parse (inc_IncidentUpdates inc) with
      | Some t => t
      | None =>
          match parse (inc_CreatedAt inc) with
          | Some t => t
          | None => time.zero
          end
      end
  end.

(** The same with [createdAt] consulted for an incident without updates
    only. *)
Definition knownTimestamp_guarded (parse : string -> option Time)
    (inc : incident) : Time :=
  match parse (inc_UpdatedAt inc) with
  | Some t => t
  | None =>
      match inc_IncidentUpdates inc with
      | [] => default time.zero (parse (inc_CreatedAt inc))
      | _ :: _ => default time.zero (newestParsed parse (inc_IncidentUpdates inc))
      end
  end.

(** No timestamp of the updates parses. *)
Definition none_parses (parse : string -> option Time)
    (updates : list incidentUpdate) : Prop :=
  Forall (fun u => parse (upd_CreatedAt u) = None) updates.

(** What the loop of [RecentResolvedIncidents] appends to [results] on the
    rest of the feed, from the ids [seen] so far. *)
Fixpoint resolvedLoop (L : golib) (cutoff : Time) (seen : gset string)
    (incidents : list incident) : list incident :=
  match incidents with
  | [] => []
  | inc :: rest =>
      if negb (strings_EqualFold L (inc_Status inc) "resolved") then
        resolvedLoop L cutoff seen rest
      else if negb (String.eqb (inc_ID inc) "") && bool_decide (inc_ID inc ∈ seen) then
        resolvedLoop L cutoff seen rest
      else
        let seen' := if negb (String.eqb (inc_ID inc) "")
                     then {[ inc_ID inc ]} ∪ seen else seen in
        if negb (time.IsZero (V3.incidentTime L inc)) &&
           time.Before (V3.incidentTime L inc) cutoff
        then resolvedLoop L cutoff seen' rest
        else inc :: resolvedLoop L cutoff seen' rest
  end.

(** How many incidents of the list carry the id. *)
Definition count_id (id : string) (l : list incident) : nat :=
  length (List.filter (fun i => String.eqb (inc_ID i) id) l).

(** The incident is within the lookback window: its known timestamp is
    not strictly before the cutoff. *)
Definition within (cutoff t : Time) : Prop := cutoff <= t.

(** Every timestamp of the incident is the empty string. *)
Definition all_empty (inc : incident) : Prop :=
  inc_UpdatedAt inc = "" /\ inc_CreatedAt inc = "" /\
  Forall (fun u => upd_CreatedAt u = "") (inc_IncidentUpdates inc).

(** The timestamp an update is sorted by: the parsed one, the zero Time when
    it does not parse. *)
Definition stamp (parse : string -> option Time) (u : incidentUpdate) : Time :=
  default time.zero (parse (upd_CreatedAt u)).

(** Most recent first. *)
Definition newest_first (parse : string -> option Time)
    (l : list incidentUpdate) : Prop :=
  StronglySorted (fun a b => stamp parse b <= stamp parse a) l.

(** The number of requests in a trace of [fetchJSON]. *)
Fixpoint requests (trace : list V2.event) : nat :=
  match trace with
  | [] => 0%nat
  | V2.Request _ :: rest => S (requests rest)
  | V2.Sleep _ _ :: rest => requests rest
  end.

(** An attempt has failed: connection failure, a status other than 200, or
    a body that does not decode. *)
Definition failed (r : V2.doResult) : bool :=
  match r with
  | V2.DoErr _ => true
  | V2.DoResp code decodes => negb (code =? V2.StatusOK) || negb decodes
  end.

(** The failures other than a status that [shouldRetryStatus] refuses:
    connection failure, a 5xx or 429 status, a 200 response whose body does
    not decode. *)
Definition retryable (r : V2.doResult) : bool :=
  match r with
  | V2.DoErr _ => true
  | V2.DoResp code decodes =>
      if code =? V2.StatusOK then negb decodes else V2.shouldRetryStatus code
  end.

(** The three ranking keys of an incident in [report.go]. *)
Definition rank_keys (L : golib) (inc : incident) : Z * Z * string :=
  (V3.incidentTime L inc, rank3 L inc, lowerName L inc).

(** The ranking chain on key triples. *)
Definition keys_le (k1 k2 : Z * Z * string) : Prop :=
  let '(t1, r1, n1) := k1 in
  let '(t2, r2, n2) := k2 in
  t2 < t1 \/ (t1 = t2 /\ (r1 < r2 \/ (r1 = r2 /\ String.leb n1 n2 = true))).

(** Every timestamp text an incident carries. *)
Definition timestamps (inc : incident) : list string :=
  inc_UpdatedAt inc :: inc_CreatedAt inc ::
  List.map upd_CreatedAt (inc_IncidentUpdates inc).

(** No resolved incident of the list carries the id of [inc]. *)
Definition id_unused (L : golib) (inc : incident) (pre : list incident) : Prop :=
  Forall (fun x => strings_EqualFold L (inc_Status x) "resolved" = true ->
                   inc_ID x <> inc_ID inc) pre.

(** The resolved incidents of a list without the repeated ids: every
    resolved incident without id, and the first resolved incident of each
    non-empty id not in [seen]. *)
Fixpoint dedupResolved (L : golib) (seen : gset string)
    (incidents : list incident) : list incident :=
  match incidents with
  | [] => []
  | inc :: rest =>
      if negb (strings_EqualFold L (inc_Status inc) "resolved") then
        dedupResolved L seen rest
      else if String.eqb (inc_ID inc) "" then inc :: dedupResolved L seen rest
      else if bool_decide (inc_ID inc ∈ seen) then dedupResolved L seen rest
      else inc :: dedupResolved L ({[ inc_ID inc ]} ∪ seen) rest
  end.

(** What one answer of [client.Do] leaves in [lastErr]: [None] for a 200
    response whose body decodes. *)
Definition verdict (r : V2.doResult) : option error :=
  match r with
  | V2.DoErr msg => Some (ErrWrap "fetch" (ErrNew msg))
  | V2.DoResp code decodes =>
      if negb (code =? V2.StatusOK) then Some (ErrNew "github status: unexpected status")
      else if negb decodes then Some (ErrNew "decode response")
      else None
  end.

(** The time spent sleeping in a trace: a timer set to a negative duration
    fires at once. *)
Fixpoint slept (trace : list V2.event) : Z :=
  match trace with
  | [] => 0
  | V2.Request _ :: rest => slept rest
  | V2.Sleep _ backoff :: rest => Z.max 0 backoff + slept rest
  end.

(** The options the command line can yield: a positive timeout, a positive
    retry count, one of the two output formats. *)
Definition valid_options (opts : V2.options) : Prop :=
  0 < V2.timeout opts /\ 0 < V2.retries opts /\
  (V2.outputFormat opts = V2.outputText \/ V2.outputFormat opts = V2.outputJSON).

(** The report inside a rendering. *)
Definition rendered_data (r : V2.rendering) : V2.report :=
  match r with
  | V2.RenderJSON data => data
  | V2.RenderText data _ => data
  end.

(** The lower-cased names of a component list, in order. *)
Definition lowerNames (L : golib) (components : list component) : list string :=
  List.map (fun c => strings_ToLower L (comp_Name c)) components.

(** Case analysis on every integer test of the goal. *)
Ltac zcases :=
  repeat match goal with
         | |- context [Z.eqb ?x ?y] => destruct (Z.eqb_spec x y)
         | |- context [Z.ltb ?x ?y] => destruct (Z.ltb_spec x y)
         end;
  cbn [negb]; try lia; try reflexivity.

(* ------------------------------------------------------------------ *)
(** ** Fixtures                                                        *)
(* ------------------------------------------------------------------ *)

Module Fx.

(** A clock reading: 2024-01-10T00:00:00Z. *)
Definition now : Time := Eval vm_compute in
  default 0 (Std.parseUTC "2024-01-10T00:00:00Z").

Definition outage : incident :=
  Incident "a" "Alpha" "investigating" "critical" "" "" "2024-01-01T00:00:00Z" [].
Definition delay : incident :=
  Incident "b" "Beta" "investigating" "minor" "" "" "2024-01-02T00:00:00Z" [].


(** The component feed of the test server. *)
Definition feed_components : list component :=
  [ Component "Git Operations" "operational" false;
    Component "Codespaces" "major_outage" false;
    Component V3.referenceComponent "operational" false;
    Component "Groups" "operational" true ].

(** Created on January 2, never updated at the top level, with one update
    whose timestamp is empty. *)
Definition stale : incident :=
  Incident "c" "Stale" "resolved" "minor" "" "2024-01-02T00:00:00Z" ""
    [IncidentUpdate "resolved" "fixed" ""].

(** Two updates, the older one first in the feed. *)
Definition early : incidentUpdate :=
  IncidentUpdate "investigating" "looking" "2024-01-01T00:00:00Z".
Definition late : incidentUpdate :=
  IncidentUpdate "resolved" "fixed" "2024-01-02T00:00:00Z".
Definition oldest_first : incident :=
  Incident "d" "Oldest first" "resolved" "minor" "" "" "" [early; late].

(** The world of a run: the component feed, two unresolved incidents with
    the same id, and a resolved feed. *)
Definition twice : incident :=
  Incident "dup" "Twice" "investigating" "major" "" "" "2024-01-09T00:00:00Z" [].

(** Resolved, with every timestamp empty. *)
Definition undated : incident :=
  Incident "" "Undated" "Resolved" "" "" "" "" [].

(** Resolved on January 9. *)
Definition recent : incident :=
  Incident "r1" "Recent" "resolved" "major" "" "" "2024-01-09T00:00:00Z" [].

(** Resolved on January 1, more than seven days before [now]. *)
Definition old : incident :=
  Incident "r2" "Old" "resolved" "major" "" "" "2024-01-01T00:00:00Z" [].

Definition world0 : world :=
  World (Ok feed_components) (Ok [twice; twice]) (Ok [undated; recent; old]) now.

(** The server of [TestBuildReport], read on January 10: one active
    incident, one incident resolved a day ago, one resolved ten days ago and
    one still monitored. *)
Definition test_components : list component :=
  [ Component "API Requests" "operational" false;
    Component "Codespaces" "major_outage" false;
    Component V3.referenceComponent "operational" false;
    Component "Group Container" "operational" true ].

Definition test_active : incident :=
  Incident "active-1" "Active Incident" "investigating" "major" "" ""
    "2024-01-09T00:00:00Z"
    [IncidentUpdate "investigating" "Investigating" "2024-01-09T00:00:00Z"].

Definition test_recent : incident :=
  Incident "resolved-new" "Recent Incident" "resolved" "major" "" ""
    "2024-01-09T00:00:00Z"
    [IncidentUpdate "resolved" "Fixed" "2024-01-09T00:00:00Z"].

Definition test_old : incident :=
  Incident "resolved-old" "Old Incident" "resolved" "major" "" ""
    "2023-12-31T00:00:00Z"
    [IncidentUpdate "resolved" "Old fix" "2023-12-31T00:00:00Z"].

Definition test_monitoring : incident :=
  Incident "monitoring" "Monitoring Incident" "monitoring" "minor" "" ""
    "2024-01-09T00:00:00Z" [].

Definition test_world : world :=
  World (Ok test_components) (Ok [test_active])
        (Ok [test_recent; test_old; test_monitoring]) now.

Definition test_cfg : V3.config := V3.Config true true false V3.outputText 5.

(** A world whose component feed holds a group and the reference entry only. *)
Definition world_empty : world :=
  World (Ok [ Component V3.referenceComponent "operational" false;
              Component "Groups" "operational" true ])
        (Ok []) (Ok []) now.

Definition cfg_resolved_only : V3.config := V3.Config false true false V3.outputText 10.
Definition cfg_details : V3.config := V3.Config true false false V3.outputText 10.

(** A network whose first answer is 200 with a body that does not decode,
    and whose later answers are 200 with a good body. *)
Definition net_bad_body : V2.net :=
  V2.Net (fun _ => true)
         (fun attempt => if attempt =? 1 then V2.DoResp 200 false else V2.DoResp 200 true)
         (fun _ _ => true).

(** A network whose first answer is 404, and whose later answers are 200
    with a good body. *)
Definition net_404 : V2.net :=
  V2.Net (fun _ => true)
         (fun attempt => if attempt =? 1 then V2.DoResp 404 true else V2.DoResp 200 true)
         (fun _ _ => true).

(** A network that answers 503 every time. *)
Definition net_503 : V2.net :=
  V2.Net (fun _ => true) (fun _ => V2.DoResp 503 true) (fun _ _ => true).

(** A world whose unresolved endpoint is down. *)
Definition world_down : world :=
  World (Ok feed_components) (Err (ErrNew "connection refused"))
        (Ok [undated; recent; old]) now.

(** The incident [recent] as the feed repeats it with an old timestamp. *)
Definition recent_stale_copy : incident :=
  Incident "r1" "Recent" "resolved" "major" "" "" "2023-12-01T00:00:00Z" [].

(** The id of [recent] on a resolved incident without any timestamp. *)
Definition recent_undated_copy : incident :=
  Incident "r1" "Recent" "resolved" "major" "" "" "" [].

(** No error of the library is recognised. *)
Definition errs_none : V2.errlib :=
  V2.ErrLib (fun _ => false) (fun _ => false) (fun _ => false)
            (fun _ => None) (fun _ => None).

(** The arguments of [TestParseArgs]. *)
Definition test_args : list string :=
  ["details"; "--timeout"; "20s"; "--retries"; "3"; "--json"].

(** A site that answers 200 on every endpoint. *)
Definition net_ok : V2.net :=
  V2.Net (fun _ => true) (fun _ => V2.DoResp 200 true) (fun _ _ => true).

Definition site0 : V2.site :=
  V2.Site net_ok feed_components net_ok [twice] net_ok [undated; recent; old].

Definition opts_json : V2.options :=
  V2.Options false false V2.defaultTimeout 2 V2.outputJSON false.

(** A heap with one incident slice at address 0. *)
Definition heap0 : V3.heap := {[ 0%nat := [delay; outage] ]}.

End Fx.

(* ================================================================== *)
(** * Orders and sorting                                               *)
(* ================================================================== *)

Section StringOrder.

Lemma ascii_compare_refl (c : ascii) : Ascii.compare c c = Eq.
Proof. unfold Ascii.compare. apply N.compare_refl. Qed.

Lemma ascii_compare_lt_trans (a b c : ascii) :
  Ascii.compare a b = Lt -> Ascii.compare b c = Lt -> Ascii.compare a c = Lt.
Proof.
  unfold Ascii.compare. rewrite !N.compare_lt_iff. apply N.lt_trans.
Qed.

Lemma string_compare_refl (s : string) : String.compare s s = Eq.
Proof.
  induction s as [|c s IH]; simpl; [reflexivity|].
  now rewrite ascii_compare_refl.
Qed.

Lemma string_compare_lt_trans (a b c : string) :
  String.compare a b = Lt -> String.compare b c = Lt -> String.compare a c = Lt.
Proof.
  revert b c. induction a as [|x a IH]; intros [|y b] [|z c]; simpl; try congruence.
  destruct (Ascii.compare x y) eqn:Hxy; try discriminate;
    destruct (Ascii.compare y z) eqn:Hyz; try discriminate; intros H1 H2.
  - apply Ascii.compare_eq_iff in Hxy, Hyz. subst.
    rewrite ascii_compare_refl. eauto.
  - apply Ascii.compare_eq_iff in Hxy. subst. now rewrite Hyz.
  - apply Ascii.compare_eq_iff in Hyz. subst. now rewrite Hxy.
  - now rewrite (ascii_compare_lt_trans _ _ _ Hxy Hyz).
Qed.

Lemma string_lt_irrefl (s : string) : string_lt s s = false.
Proof. unfold string_lt, String.ltb. now rewrite string_compare_refl. Qed.

Lemma string_lt_trans (a b c : string) :
  string_lt a b = true -> string_lt b c = true -> string_lt a c = true.
Proof.
  unfold string_lt, String.ltb.
  destruct (String.compare a b) eqn:Hab; try discriminate.
  destruct (String.compare b c) eqn:Hbc; try discriminate.
  now rewrite (string_compare_lt_trans _ _ _ Hab Hbc).
Qed.

(** Two strings neither of which is below the other are equal. *)
Lemma string_lt_connex (a b : string) :
  string_lt a b = false -> string_lt b a = false -> a = b.
Proof.
  unfold string_lt, String.ltb. rewrite (String.compare_antisym b a).
  destruct (String.compare a b) eqn:Hab; simpl; try discriminate.
  intros _ _. now apply String.compare_eq_iff.
Qed.

Lemma string_lt_asym (a b : string) :
  string_lt a b = true -> string_lt b a = false.
Proof.
  unfold string_lt, String.ltb. rewrite (String.compare_antisym b a).
  destruct (String.compare a b); simpl; congruence.
Qed.

Lemma string_lt_incomp (a b c : string) :
  string_lt a b = false -> string_lt b c = false -> string_lt a c = false.
Proof.
  intros Hab Hbc.
  destruct (string_lt b a) eqn:Hba.
  - destruct (string_lt c b) eqn:Hcb.
    + apply string_lt_asym. eapply string_lt_trans; eauto.
    + rewrite (string_lt_connex _ _ Hbc Hcb) in *. now apply string_lt_asym.
  - now rewrite (string_lt_connex _ _ Hab Hba).
Qed.

Lemma string_leb_ltb (a b : string) : String.leb a b = negb (string_lt b a).
Proof.
  unfold string_lt, String.leb, String.ltb. rewrite (String.compare_antisym a b).
  now destruct (String.compare b a).
Qed.

Lemma leb_refl_string (s : string) : String.leb s s = true.
Proof. rewrite string_leb_ltb. now rewrite string_lt_irrefl. Qed.

Lemma leb_trans_string (a b c : string) :
  String.leb a b = true -> String.leb b c = true -> String.leb a c = true.
Proof.
  rewrite !string_leb_ltb, !negb_true_iff. intros H1 H2.
  eapply string_lt_incomp; eauto.
Qed.

End StringOrder.

Section StrictWeak.
Context {A : Type}.

Lemma strict_weak_asym (less : A -> A -> bool) (H : strict_weak less) a b :
  less a b = true -> less b a = false.
Proof.
  intros Hab. destruct (less b a) eqn:Hba; [|reflexivity].
  pose proof (sw_trans _ H _ _ _ Hab Hba) as Haa.
  now rewrite (sw_irrefl _ H) in Haa.
Qed.

(** Comparing the images under [f] of a strict weak ordering. *)
Lemma strict_weak_on {B : Type} (f : A -> B) (less : B -> B -> bool) :
  strict_weak less -> strict_weak (fun a b => less (f a) (f b)).
Proof.
  intros [Hi Ht Hn]. split; eauto.
Qed.

Lemma strict_weak_by_key (k : A -> Z) (rest : A -> A -> bool) :
  strict_weak rest -> strict_weak (by_key k rest).
Proof.
  intros [Hi Ht Hn]. unfold by_key. split.
  - intros a. rewrite Z.eqb_refl. simpl. apply Hi.
  - intros a b c.
    destruct (Z.eqb_spec (k a) (k b)), (Z.eqb_spec (k b) (k c)),
      (Z.eqb_spec (k a) (k c)); simpl; rewrite ?Z.ltb_lt; try lia; eauto.
  - intros a b c.
    destruct (Z.eqb_spec (k a) (k b)), (Z.eqb_spec (k b) (k c)),
      (Z.eqb_spec (k a) (k c)); simpl; rewrite ?Z.ltb_ge; try lia; eauto.
Qed.

Lemma StronglySorted_iff (R S : A -> A -> Prop) (l : list A) :
  (forall a b, R a b <-> S a b) -> StronglySorted R l -> StronglySorted S l.
Proof.
  intros HRS. induction 1 as [|x l Hl IH Hx]; constructor; [assumption|].
  eapply Forall_impl; [exact Hx|]. intros y. apply HRS.
Qed.

End StrictWeak.

Lemma strict_weak_string_lt : strict_weak string_lt.
Proof.
  split; [apply string_lt_irrefl | apply string_lt_trans | apply string_lt_incomp].
Qed.

(** ** Insertion sort meets the contract *)

Section InsertionSort.
Context {A : Type} (less : A -> A -> bool).

Lemma sink_perm (x : A) (rp : list A) : Permutation (x :: rp) (Std.sink less x rp).
Proof.
  induction rp as [|y rp IH]; simpl; [reflexivity|].
  destruct (less x y); [|reflexivity].
  rewrite perm_swap. now constructor.
Qed.

Lemma sink_fold_perm (l rp : list A) :
  Permutation (rp ++ l) (fold_left (fun rp x => Std.sink less x rp) l rp).
Proof.
  revert rp. induction l as [|x l IH]; intros rp; simpl.
  - now rewrite app_nil_r.
  - rewrite <- IH. rewrite <- sink_perm. simpl.
    symmetry. apply Permutation_middle.
Qed.

Lemma insertionSort_perm (l : list A) : Permutation l (Std.insertionSort less l).
Proof.
  unfold Std.insertionSort. rewrite <- Permutation_rev.
  apply (sink_fold_perm l []).
Qed.

Context (Hsw : strict_weak less).

Lemma sink_rsorted (x : A) (rp : list A) :
  rsorted less rp -> rsorted less (Std.sink less x rp).
Proof.
  unfold rsorted. induction rp as [|y rp IH]; intros Hs; simpl.
  - repeat constructor.
  - apply StronglySorted_inv in Hs as [Hs Hy].
    destruct (less x y) eqn:Hxy.
    + constructor; [now apply IH|].
      rewrite <- sink_perm. constructor; [|assumption].
      now apply strict_weak_asym.
    + constructor; [now constructor|].
      constructor; [assumption|].
      eapply Forall_impl; [exact Hy|]. simpl. intros z Hyz.
      eapply sw_incomp; eauto.
Qed.

Lemma sink_fold_rsorted (l rp : list A) :
  rsorted less rp -> rsorted less (fold_left (fun rp x => Std.sink less x rp) l rp).
Proof.
  revert rp. induction l as [|x l IH]; intros rp Hs; simpl; [assumption|].
  apply IH. now apply sink_rsorted.
Qed.

Lemma rsorted_rev (rp : list A) : rsorted less rp -> sorted_by less (rev rp).
Proof.
  unfold rsorted, sorted_by. induction rp as [|y rp IH]; intros Hs; simpl.
  - constructor.
  - apply StronglySorted_inv in Hs as [Hs Hy].
    specialize (IH Hs). clear Hs.
    assert (Hy' : Forall (fun a => less y a = false) (rev rp)).
    { rewrite List.Forall_forall in *. intros a Ha. apply Hy. now apply in_rev. }
    clear Hy. induction (rev rp) as [|z q IHq]; simpl.
    + repeat constructor.
    + apply StronglySorted_inv in IH as [IH1 IH2].
      apply Forall_cons_iff in Hy' as [Hz Hq].
      constructor; [now apply IHq|].
      apply Forall_app. split; [assumption|]. now constructor.
Qed.

Lemma insertionSort_sorted (l : list A) : sorted_by less (Std.insertionSort less l).
Proof.
  unfold Std.insertionSort. apply rsorted_rev, sink_fold_rsorted. constructor.
Qed.

End InsertionSort.

Lemma stdgo_contract : sort_contract stdgo.
Proof.
  split; simpl; intros.
  - apply insertionSort_perm.
  - now apply insertionSort_sorted.
Qed.

(* ================================================================== *)
(** * Incident ranking                                                 *)
(* ================================================================== *)

Section Ranking.
Context (known rank : incident -> Z) (name : incident -> string).

Lemma time_rank_name_total :
  total_on_keys known rank name (time_rank_name known rank name).
Proof.
  unfold time_rank_name. split.
  - intros a. right. split; [reflexivity|]. right. split; [reflexivity|].
    apply leb_refl_string.
  - intros a b c H1 H2.
    assert (Ht := leb_trans_string (name a) (name b) (name c)).
    intuition (try lia).
  - intros a b.
    destruct (String.leb_total (name a) (name b)),
      (Z.lt_trichotomy (known a) (known b)) as [?|[?|?]],
      (Z.lt_trichotomy (rank a) (rank b)) as [?|[?|?]]; intuition lia.
  - intros a b H1 H2.
    assert (Ha := String.leb_antisym (name a) (name b)).
    intuition lia.
Qed.

Lemma rank_time_name_total :
  total_on_keys known rank name (rank_time_name known rank name).
Proof.
  unfold rank_time_name. split.
  - intros a. right. split; [reflexivity|]. right. split; [reflexivity|].
    apply leb_refl_string.
  - intros a b c H1 H2.
    assert (Ht := leb_trans_string (name a) (name b) (name c)).
    intuition (try lia).
  - intros a b.
    destruct (String.leb_total (name a) (name b)),
      (Z.lt_trichotomy (known a) (known b)) as [?|[?|?]],
      (Z.lt_trichotomy (rank a) (rank b)) as [?|[?|?]]; intuition lia.
  - intros a b H1 H2.
    assert (Ha := String.leb_antisym (name a) (name b)).
    intuition lia.
Qed.

End Ranking.

Section RankingCode.
Context (L : golib).

Lemma strict_weak_name_less : strict_weak (name_less L).
Proof. apply (strict_weak_on (lowerName L)), strict_weak_string_lt. Qed.

(** The closure of [report.go] compares the negated timestamp, then the
    rank, then the name. *)
Lemma V3_incident_less_keys (a b : incident) :
  V3.incident_less L a b =
  by_key (fun i => - V3.incidentTime L i) (by_key (rank3 L) (name_less L)) a b.
Proof.
  unfold V3.incident_less, by_key, rank3, name_less, lowerName,
    time.Equal, time.After.
  zcases.
Qed.

(** The closure of the 0.2.0 program compares the rank, then the negated
    timestamp, then the name. *)
Lemma V2_incident_less_keys (a b : incident) :
  V2.incident_less L a b =
  by_key (rank2 L) (by_key (fun i => - V2.incidentTime L i) (name_less L)) a b.
Proof.
  unfold V2.incident_less, by_key, rank2, name_less, lowerName,
    time.Equal, time.After.
  zcases.
Qed.

Lemma strict_weak_V3_incident_less : strict_weak (V3.incident_less L).
Proof.
  assert (H := strict_weak_by_key (fun i => - V3.incidentTime L i) _
                 (strict_weak_by_key (rank3 L) _ strict_weak_name_less)).
  destruct H as [Hi Ht Hn].
  split; intros *; rewrite !V3_incident_less_keys; eauto.
Qed.

Lemma strict_weak_V2_incident_less : strict_weak (V2.incident_less L).
Proof.
  assert (H := strict_weak_by_key (rank2 L) _
                 (strict_weak_by_key (fun i => - V2.incidentTime L i) _
                    strict_weak_name_less)).
  destruct H as [Hi Ht Hn].
  split; intros *; rewrite !V2_incident_less_keys; eauto.
Qed.

(** "[b] is not less than [a]" is the chain of the specification. *)
Lemma V3_not_less_chain (a b : incident) :
  V3.incident_less L b a = false <->
  time_rank_name (V3.incidentTime L) (rank3 L) (lowerName L) a b.
Proof.
  rewrite V3_incident_less_keys. unfold by_key, time_rank_name, name_less.
  rewrite string_leb_ltb.
  destruct (Z.eqb_spec (- V3.incidentTime L b) (- V3.incidentTime L a)); simpl.
  - destruct (Z.eqb_spec (rank3 L b) (rank3 L a)); simpl.
    + rewrite negb_true_iff. intuition lia.
    + rewrite Z.ltb_ge. intuition lia.
  - rewrite Z.ltb_ge. intuition lia.
Qed.

Lemma V2_not_less_chain (a b : incident) :
  V2.incident_less L b a = false <->
  rank_time_name (V2.incidentTime L) (rank2 L) (lowerName L) a b.
Proof.
  rewrite V2_incident_less_keys. unfold by_key, rank_time_name, name_less.
  rewrite string_leb_ltb.
  destruct (Z.eqb_spec (rank2 L b) (rank2 L a)); simpl.
  - destruct (Z.eqb_spec (- V2.incidentTime L b) (- V2.incidentTime L a)); simpl.
    + rewrite negb_true_iff. intuition lia.
    + rewrite Z.ltb_ge. intuition lia.
  - rewrite Z.ltb_ge. intuition lia.
Qed.

Lemma V3_impact_table : impact_table L (V3.impactOrder L).
Proof.
  intros impact. unfold V3.impactOrder. cbv zeta.
  generalize (strings_ToLower L (strings_TrimSpace L impact)). intros s.
  repeat split; intros; subst; try reflexivity.
  repeat match goal with
         | |- context [String.eqb s ?c] => destruct (String.eqb_spec s c); [congruence|]
         end.
  reflexivity.
Qed.

Lemma V2_impact_table : impact_table L (V2.impactOrder L).
Proof. apply V3_impact_table. Qed.

End RankingCode.

(** The two [sortIncidents] on the fixture: the critical incident of
    January 1 and the minor incident of January 2. *)
Lemma V3_sortIncidents_fixture :
  V3.sortIncidents stdgo [Fx.outage; Fx.delay] = [Fx.delay; Fx.outage].
Proof. reflexivity. Qed.

Lemma V2_sortIncidents_fixture :
  V2.sortIncidents stdgo [Fx.outage; Fx.delay] = [Fx.outage; Fx.delay].
Proof. reflexivity. Qed.

(** C1, counterexample: the [sortIncidents] of the 0.2.0 program
    ([client.go], line 642) puts the critical incident of January 1 before the
    minor incident of January 2; its result is not ordered by the chain that
    starts with the most recent timestamp. *)
Lemma sortIncidents_impact_first :
  V2.sortIncidents stdgo [Fx.outage; Fx.delay] = [Fx.outage; Fx.delay] /\
  ~ StronglySorted
      (time_rank_name (V2.incidentTime stdgo) (rank2 stdgo) (lowerName stdgo))
      (V2.sortIncidents stdgo [Fx.outage; Fx.delay]).
Proof.
  split; [reflexivity|].
  rewrite V2_sortIncidents_fixture. intros H.
  apply StronglySorted_inv in H as [_ H]. apply Forall_inv in H.
  unfold time_rank_name in H.
  assert (Ha : V2.incidentTime stdgo Fx.outage = 63839664000000000000) by reflexivity.
  assert (Hb : V2.incidentTime stdgo Fx.delay = 63839750400000000000) by reflexivity.
  rewrite Ha, Hb in H. lia.
Qed.

(** C1, amended: for every incident list, the [sortIncidents] of [report.go]
    returns a permutation ordered by the chain timestamp descending, impact
    rank ascending, lower-cased name ascending; the [sortIncidents] of the
    0.2.0 program in [client.go] returns a permutation ordered by the chain
    impact rank ascending, timestamp descending, lower-cased name ascending.
    The rank is 0 for critical, 1 for major, 2 for minor, 3 for none and 4
    for anything else, and each chain is a total order of the key triples
    (incidents with the same three keys are not ordered). *)
Theorem sortIncidents_ranking (L : golib) (HL : sort_contract L)
    (incidents : list incident) :
  (Permutation incidents (V3.sortIncidents L incidents) /\
   StronglySorted (time_rank_name (V3.incidentTime L) (rank3 L) (lowerName L))
     (V3.sortIncidents L incidents)) /\
  (Permutation incidents (V2.sortIncidents L incidents) /\
   StronglySorted (rank_time_name (V2.incidentTime L) (rank2 L) (lowerName L))
     (V2.sortIncidents L incidents)) /\
  total_on_keys (V3.incidentTime L) (rank3 L) (lowerName L)
    (time_rank_name (V3.incidentTime L) (rank3 L) (lowerName L)) /\
  total_on_keys (V2.incidentTime L) (rank2 L) (lowerName L)
    (rank_time_name (V2.incidentTime L) (rank2 L) (lowerName L)) /\
  impact_table L (V3.impactOrder L) /\
  impact_table L (V2.impactOrder L).
Proof.
  split_and!.
  - apply (sort_perm L HL).
  - eapply StronglySorted_iff; [apply V3_not_less_chain|].
    apply (sort_sorted L HL), strict_weak_V3_incident_less.
  - apply (sort_perm L HL).
  - eapply StronglySorted_iff; [apply V2_not_less_chain|].
    apply (sort_sorted L HL), strict_weak_V2_incident_less.
  - apply time_rank_name_total.
  - apply rank_time_name_total.
  - apply V3_impact_table.
  - apply V2_impact_table.
Qed.

(** C1, witness: the theorem at the executable library and the fixture. *)
Lemma sortIncidents_ranking_witness :
  sort_contract stdgo /\
  (Permutation [Fx.outage; Fx.delay] (V3.sortIncidents stdgo [Fx.outage; Fx.delay]) /\
   StronglySorted
     (time_rank_name (V3.incidentTime stdgo) (rank3 stdgo) (lowerName stdgo))
     (V3.sortIncidents stdgo [Fx.outage; Fx.delay])).
Proof.
  split; [exact stdgo_contract|].
  exact (proj1 (sortIncidents_ranking stdgo stdgo_contract [Fx.outage; Fx.delay])).
Defined.

(* ================================================================== *)
(** * [sortIncidents] sorts a copy                                     *)
(* ================================================================== *)

(** On the heap, [sortIncidents] writes the sorted content at a fresh
    address and nowhere else. *)
Lemma sortIncidents_heap_eq (L : golib) (h : V3.heap) (p : nat)
    (incidents : list incident) :
  h !! p = Some incidents ->
  V3.sortIncidents_heap L h p =
  (<[fresh (dom h) := V3.sortIncidents L incidents]> h, fresh (dom h)).
Proof.
  intros Hp. unfold V3.sortIncidents_heap, V3.sortIncidents, V3.heap in *.
  rewrite Hp. simpl.
  rewrite !lookup_insert_eq. simpl.
  rewrite length_replicate, firstn_all.
  now rewrite !insert_insert_eq.
Qed.

(** C10: for every incident list held by the caller at address [p],
    [sortIncidents] returns a slice at an address [q] that was not in use,
    whose content is a permutation of the caller's list; the caller's list
    at [p], and every other slice, is left as it was. *)
Theorem sortIncidents_permutes_copy (L : golib) (HL : sort_contract L)
    (h : V3.heap) (p : nat) (incidents : list incident) :
  h !! p = Some incidents ->
  let h' := fst (V3.sortIncidents_heap L h p) in
  let q := snd (V3.sortIncidents_heap L h p) in
  h !! q = None /\
  h' !! p = Some incidents /\
  (forall r : nat, r <> q -> h' !! r = h !! r) /\
  h' !! q = Some (V3.sortIncidents L incidents) /\
  Permutation incidents (V3.sortIncidents L incidents).
Proof.
  intros Hp. rewrite (sortIncidents_heap_eq L h p incidents Hp). simpl.
  unfold V3.heap in *.
  assert (Hq : h !! fresh (dom h) = None).
  { apply not_elem_of_dom. apply is_fresh. }
  split_and!.
  - exact Hq.
  - rewrite lookup_insert_ne; [assumption|]. intros E. rewrite E in Hq. congruence.
  - intros r Hr. now rewrite lookup_insert_ne.
  - apply lookup_insert_eq.
  - apply (sort_perm L HL).
Qed.

(** C10, witness: the heap with one slice at address 0. *)
Lemma sortIncidents_permutes_copy_witness :
  sort_contract stdgo /\
  Fx.heap0 !! 0%nat = Some [Fx.delay; Fx.outage] /\
  fst (V3.sortIncidents_heap stdgo Fx.heap0 0) !! 0%nat = Some [Fx.delay; Fx.outage].
Proof.
  split; [exact stdgo_contract|].
  assert (H0 : Fx.heap0 !! 0%nat = Some [Fx.delay; Fx.outage]) by reflexivity.
  split; [exact H0|].
  exact (proj1 (proj2
    (sortIncidents_permutes_copy stdgo stdgo_contract Fx.heap0 0 _ H0))).
Defined.

(* ================================================================== *)
(** * Building the report                                              *)
(* ================================================================== *)

(** Unfold one run of [buildReport] down to the answers of the world. *)
Ltac run_buildReport :=
  unfold run_io, V3.buildReport, V3.Components, V3.ActiveIncidents,
    V3.RecentResolvedIncidents, get, mbind, io_bind, bind, mret, io_ret, ret, fail.

Lemma buildReport_fetch_failed (L : golib) (w : world) (cfg : V3.config) (e : error) :
  get_components w = Err e ->
  run_io (V3.buildReport L w cfg) =
  (Err (ErrWrap "fetch components" e), [componentsURL]).
Proof. intros H. run_buildReport. now rewrite H. Qed.

Lemma buildReport_empty (L : golib) (w : world) (cfg : V3.config)
    (comps : list component) :
  get_components w = Ok comps ->
  V3.filterComponents L comps = [] ->
  run_io (V3.buildReport L w cfg) =
  (Err (ErrNew "github status returned no components"), [componentsURL]).
Proof. intros H E. run_buildReport. rewrite H. simpl. now rewrite E. Qed.

(** A report that was built holds the filtered components of the feed,
    and they are not empty. *)
Lemma buildReport_components (L : golib) (w : world) (cfg : V3.config) (r : V3.report) :
  fst (run_io (V3.buildReport L w cfg)) = Ok r ->
  exists comps, get_components w = Ok comps /\
    V3.rep_Components r = V3.filterComponents L comps /\
    V3.filterComponents L comps <> [].
Proof.
  run_buildReport.
  destruct (get_components w) as [comps|e]; simpl; [|discriminate].
  destruct (V3.filterComponents L comps) as [|c cs] eqn:E; simpl; [discriminate|].
  intros H. exists comps. split; [reflexivity|].
  destruct (V3.showDetails cfg), (V3.showResolved cfg),
    (String.eqb (V3.output cfg) V3.outputJSON),
    (get_unresolved w), (get_incidents w); simpl in H;
    try discriminate; injection H as <-; simpl; split; congruence.
Qed.

(** ** Components *)

Lemma strict_weak_component_less (L : golib) : strict_weak (V3.component_less L).
Proof.
  apply (strict_weak_on (fun c => strings_ToLower L (comp_Name c))),
    strict_weak_string_lt.
Qed.

Lemma keep_component_iff (L : golib) (c : component) :
  V3.keep_component L c = true <->
  comp_Group c = false /\
  strings_EqualFold L (comp_Name c) V3.referenceComponent = false.
Proof.
  unfold V3.keep_component.
  destruct (comp_Group c), (strings_EqualFold L (comp_Name c) V3.referenceComponent);
    intuition congruence.
Qed.

(** C8: for every fetched component list, the component list of the report
    is [filterComponents] of it: the input components (each as often as in
    the input, name and status untouched) that are neither a group nor
    named as the reference entry up to case, in ascending order of the
    lower-cased name. *)
Theorem filterComponents_filters_and_sorts (L : golib) (HL : sort_contract L)
    (components : list component) :
  Permutation
    (List.filter (fun c => negb (comp_Group c) &&
                           negb (strings_EqualFold L (comp_Name c) V3.referenceComponent))
       components)
    (V3.filterComponents L components) /\
  StronglySorted
    (fun a b => String.leb (strings_ToLower L (comp_Name a))
                           (strings_ToLower L (comp_Name b)) = true)
    (V3.filterComponents L components) /\
  (forall c : component,
     In c (V3.filterComponents L components) <->
     In c components /\ comp_Group c = false /\
     strings_EqualFold L (comp_Name c) V3.referenceComponent = false) /\
  (forall (w : world) (cfg : V3.config) (r : V3.report),
     get_components w = Ok components ->
     fst (run_io (V3.buildReport L w cfg)) = Ok r ->
     V3.rep_Components r = V3.filterComponents L components).
Proof.
  assert (Hf : List.filter (fun c => negb (comp_Group c) &&
                 negb (strings_EqualFold L (comp_Name c) V3.referenceComponent))
                 components
               = List.filter (V3.keep_component L) components).
  { apply List.filter_ext. intros c. unfold V3.keep_component.
    now destruct (comp_Group c), (strings_EqualFold L (comp_Name c) V3.referenceComponent). }
  assert (Hp : Permutation (List.filter (V3.keep_component L) components)
                 (V3.filterComponents L components)) by apply (sort_perm L HL).
  split_and!.
  - now rewrite Hf.
  - unfold V3.filterComponents.
    eapply StronglySorted_iff;
      [|apply (sort_sorted L HL), strict_weak_component_less].
    intros a b. unfold V3.component_less. rewrite string_leb_ltb.
    now rewrite negb_true_iff.
  - intros c. rewrite <- (keep_component_iff L c). split.
    + intros Hc. apply (Permutation_in _ (Permutation_sym Hp)) in Hc.
      now apply List.filter_In in Hc.
    + intros Hc. apply (Permutation_in _ Hp). now apply List.filter_In.
  - intros w cfg r Hc Hr.
    destruct (buildReport_components L w cfg r Hr) as (comps & Hc' & Hrep & _).
    congruence.
Qed.

(** C8, witness: the component feed of the test server. *)
Lemma filterComponents_filters_and_sorts_witness :
  sort_contract stdgo /\
  V3.filterComponents stdgo Fx.feed_components =
    [Component "Codespaces" "major_outage" false;
     Component "Git Operations" "operational" false] /\
  StronglySorted
    (fun a b => String.leb (strings_ToLower stdgo (comp_Name a))
                           (strings_ToLower stdgo (comp_Name b)) = true)
    (V3.filterComponents stdgo Fx.feed_components).
Proof.
  split; [exact stdgo_contract|]. split; [reflexivity|].
  exact (proj1 (proj2
    (filterComponents_filters_and_sorts stdgo stdgo_contract Fx.feed_components))).
Defined.

(** [TestBuildReport] of the repository: two components, one active
    incident, and the recent incident as the only resolved one. *)
Example TestBuildReport :
  run_io (V3.buildReport stdgo Fx.test_world Fx.test_cfg) =
  (Ok (V3.Report
         [ Component "API Requests" "operational" false;
           Component "Codespaces" "major_outage" false ]
         [Fx.test_active]
         [Fx.test_recent]),
   [componentsURL; unresolvedURL; incidentsURL]).
Proof. reflexivity. Qed.

(** C9: when the component feed is fetched and nothing is left of it after
    filtering, [buildReport] fails with the error "github status returned no
    components", having fetched the components only; and every report that
    is built has a non-empty component list, the filtered feed. *)
Theorem buildReport_needs_components (L : golib) (w : world) (cfg : V3.config) :
  (forall comps : list component,
     get_components w = Ok comps ->
     V3.filterComponents L comps = [] ->
     run_io (V3.buildReport L w cfg) =
     (Err (ErrNew "github status returned no components"), [componentsURL])) /\
  (forall r : V3.report,
     fst (run_io (V3.buildReport L w cfg)) = Ok r ->
     V3.rep_Components r <> [] /\
     exists comps, get_components w = Ok comps /\
       V3.rep_Components r = V3.filterComponents L comps).
Proof.
  split.
  - intros comps H E. now apply buildReport_empty with comps.
  - intros r H. destruct (buildReport_components L w cfg r H) as (comps & Hc & Hr & Hne).
    split; [congruence|]. eauto.
Qed.

(** C9, witness: a feed that holds a group and the reference entry only. *)
Lemma buildReport_needs_components_witness :
  V3.filterComponents stdgo
    [ Component V3.referenceComponent "operational" false;
      Component "Groups" "operational" true ] = [] /\
  run_io (V3.buildReport stdgo Fx.world_empty Fx.cfg_details) =
  (Err (ErrNew "github status returned no components"), [componentsURL]).
Proof.
  split; [reflexivity|].
  apply (proj1 (buildReport_needs_components stdgo Fx.world_empty Fx.cfg_details)
           [ Component V3.referenceComponent "operational" false;
             Component "Groups" "operational" true ]);
    reflexivity.
Defined.

(** C6, counterexample: with the resolved flag alone, in text mode, the
    unresolved incidents are not fetched and Active stays empty, although
    the feed holds unresolved incidents. *)
Lemma buildReport_resolved_only :
  V3.showResolved Fx.cfg_resolved_only = true /\
  get_unresolved Fx.world0 = Ok [Fx.twice; Fx.twice] /\
  snd (run_io (V3.buildReport stdgo Fx.world0 Fx.cfg_resolved_only)) =
    [componentsURL; incidentsURL] /\
  (exists r, fst (run_io (V3.buildReport stdgo Fx.world0 Fx.cfg_resolved_only)) = Ok r /\
             V3.rep_Active r = []) /\
  ~ (In unresolvedURL (snd (run_io (V3.buildReport stdgo Fx.world0 Fx.cfg_resolved_only)))
     <-> V3.showDetails Fx.cfg_resolved_only = true \/
         V3.showResolved Fx.cfg_resolved_only = true \/
         V3.output Fx.cfg_resolved_only = V3.outputJSON).
Proof.
  split_and!; try reflexivity.
  - eexists. split; reflexivity.
  - intros [_ H].
    assert (Hin : In unresolvedURL [componentsURL; incidentsURL]).
    { apply H. right. left. reflexivity. }
    simpl in Hin. intuition discriminate.
Qed.

(** C6, amended: for every configuration, once the components are fetched
    and some remain after filtering, [buildReport] fetches the unresolved
    incidents exactly when the details flag is set or the output is JSON
    (the resolved flag plays no part); Active is then the sorted feed, and
    is left empty otherwise. *)
Theorem buildReport_fetches_unresolved (L : golib) (w : world) (cfg : V3.config)
    (comps : list component) :
  get_components w = Ok comps ->
  V3.filterComponents L comps <> [] ->
  (In unresolvedURL (snd (run_io (V3.buildReport L w cfg))) <->
   V3.showDetails cfg = true \/ V3.output cfg = V3.outputJSON) /\
  (forall (r : V3.report) (active : list incident),
     fst (run_io (V3.buildReport L w cfg)) = Ok r ->
     get_unresolved w = Ok active ->
     V3.rep_Active r =
     if V3.showDetails cfg || String.eqb (V3.output cfg) V3.outputJSON
     then V3.sortIncidents L active else []).
Proof.
  intros Hc Hne. run_buildReport. rewrite Hc. simpl.
  destruct (V3.filterComponents L comps) as [|c cs] eqn:E; [congruence|]. simpl.
  split.
  - destruct (V3.showDetails cfg), (V3.showResolved cfg),
      (String.eqb_spec (V3.output cfg) V3.outputJSON),
      (get_unresolved w), (get_incidents w); simpl;
      intuition (try congruence; try discriminate).
  - intros r active H Ha. rewrite Ha in H.
    destruct (V3.showDetails cfg), (V3.showResolved cfg),
      (String.eqb (V3.output cfg) V3.outputJSON),
      (get_incidents w); simpl in *;
      try discriminate; injection H as <-; reflexivity.
Qed.

(** C6, witness: the details flag alone. *)
Lemma buildReport_fetches_unresolved_witness :
  get_components Fx.world0 = Ok Fx.feed_components /\
  V3.filterComponents stdgo Fx.feed_components <> [] /\
  (In unresolvedURL (snd (run_io (V3.buildReport stdgo Fx.world0 Fx.cfg_details))) <->
   V3.showDetails Fx.cfg_details = true \/ V3.output Fx.cfg_details = V3.outputJSON).
Proof.
  assert (Hne : V3.filterComponents stdgo Fx.feed_components <> []).
  { vm_compute. discriminate. }
  split_and!; [reflexivity | exact Hne |].
  exact (proj1 (buildReport_fetches_unresolved stdgo Fx.world0 Fx.cfg_details
                  Fx.feed_components eq_refl Hne)).
Defined.

(* ================================================================== *)
(** * The known timestamp of an incident                               *)
(* ================================================================== *)

Lemma strict_weak_Z_gt : strict_weak (fun a b : Z => b <? a).
Proof.
  split; intros *; rewrite ?Z.ltb_lt, ?Z.ltb_ge; lia.
Qed.

Section KnownTimestamp.
Context (L : golib).

Lemma parseTime_same (raw : string) : V2.parseTime L raw = V3.parseTime L raw.
Proof. reflexivity. Qed.

Lemma parseTime_empty : V3.parseTime L "" = None.
Proof. reflexivity. Qed.

Lemma strict_weak_update_less : strict_weak (V2.update_less L).
Proof.
  apply (strict_weak_on (fun u => V2.parsedOrZero L (upd_CreatedAt u))),
    strict_weak_Z_gt.
Qed.

Lemma newestParsed_witness (parse : string -> option Time)
    (updates : list incidentUpdate) (t : Time) :
  newestParsed parse updates = Some t ->
  exists u, In u updates /\ parse (upd_CreatedAt u) = Some t.
Proof.
  revert t. induction updates as [|u rest IH]; simpl; intros t; [discriminate|].
  destruct (parse (upd_CreatedAt u)) as [tu|] eqn:Eu.
  - destruct (newestParsed parse rest) as [tr|] eqn:Er.
    + intros [= <-]. destruct (Z.max_spec tu tr) as [[_ ->]|[_ ->]].
      * destruct (IH tr eq_refl) as (x & Hx & Hp). eauto.
      * eauto.
    + intros [= <-]. eauto.
  - intros H. destruct (IH t H) as (x & Hx & Hp). eauto.
Qed.

Lemma newestParsed_upper (parse : string -> option Time)
    (updates : list incidentUpdate) (u : incidentUpdate) (t : Time) :
  In u updates -> parse (upd_CreatedAt u) = Some t ->
  exists m, newestParsed parse updates = Some m /\ t <= m.
Proof.
  induction updates as [|x rest IH]; simpl; [tauto|].
  intros [->|Hin] Hp.
  - rewrite Hp. destruct (newestParsed parse rest) as [tr|].
    + exists (Z.max t tr). split; [reflexivity|lia].
    + exists t. split; [reflexivity|lia].
  - destruct (IH Hin Hp) as (m & -> & Hm).
    destruct (parse (upd_CreatedAt x)) as [tx|].
    + exists (Z.max tx m). split; [reflexivity|lia].
    + eauto.
Qed.

Lemma newestParsed_none (parse : string -> option Time)
    (updates : list incidentUpdate) :
  newestParsed parse updates = None <-> none_parses parse updates.
Proof.
  unfold none_parses. induction updates as [|u rest IH]; simpl.
  - split; [constructor|reflexivity].
  - rewrite Forall_cons_iff, <- IH.
    destruct (parse (upd_CreatedAt u)), (newestParsed parse rest);
      intuition congruence.
Qed.

Lemma newestParsed_perm (parse : string -> option Time)
    (l l' : list incidentUpdate) :
  Permutation l l' -> newestParsed parse l = newestParsed parse l'.
Proof.
  induction 1 as [|x l l' _ IH|x y l|l l' l'' _ IH1 _ IH2]; simpl.
  - reflexivity.
  - now rewrite IH.
  - destruct (parse (upd_CreatedAt x)), (parse (upd_CreatedAt y)),
      (newestParsed parse l); try reflexivity; f_equal; lia.
  - congruence.
Qed.

(** In a list sorted by [update_less], the first timestamp that parses is
    the newest one. *)
Lemma firstParsed_sorted (s : list incidentUpdate) :
  sorted_by (V2.update_less L) s ->
  V2.firstParsed L s = newestParsed (V2.parseTime L) s.
Proof.
  unfold sorted_by. induction 1 as [|u rest Hs IH Hu]; simpl; [reflexivity|].
  destruct (V2.parseTime L (upd_CreatedAt u)) as [t|] eqn:Eu; [|exact IH].
  destruct (newestParsed (V2.parseTime L) rest) as [tr|] eqn:Er; [|reflexivity].
  destruct (newestParsed_witness _ _ _ Er) as (x & Hx & Hp).
  rewrite List.Forall_forall in Hu. specialize (Hu x Hx).
  unfold V2.update_less, V2.parsedOrZero, time.After in Hu.
  rewrite Eu, Hp in Hu. apply Z.ltb_ge in Hu.
  f_equal. lia.
Qed.

Lemma V2_firstParsed_newest (HL : sort_contract L) (updates : list incidentUpdate) :
  V2.firstParsed L (V2.sortIncidentUpdates L updates) =
  newestParsed (V3.parseTime L) updates.
Proof.
  rewrite firstParsed_sorted.
  - symmetry. apply newestParsed_perm, (sort_perm L HL).
  - apply (sort_sorted L HL), strict_weak_update_less.
Qed.

Lemma V3_firstParsed_feed (pre post : list incidentUpdate) (u : incidentUpdate)
    (t : Time) :
  none_parses (V3.parseTime L) pre ->
  V3.parseTime L (upd_CreatedAt u) = Some t ->
  V3.firstParsed L (pre ++ u :: post) = Some t.
Proof.
  unfold none_parses. induction 1 as [|x pre Hx _ IH]; simpl; intros Hu.
  - now rewrite Hu.
  - rewrite Hx. now apply IH.
Qed.

Lemma V3_firstParsed_none (updates : list incidentUpdate) :
  none_parses (V3.parseTime L) updates -> V3.firstParsed L updates = None.
Proof.
  unfold none_parses. induction 1 as [|x l Hx _ IH]; simpl; [reflexivity|].
  now rewrite Hx.
Qed.

Lemma V2_incidentTime_guarded (HL : sort_contract L) (inc : incident) :
  V2.incidentTime L inc = knownTimestamp_guarded (V3.parseTime L) inc.
Proof.
  unfold V2.incidentTime, knownTimestamp_guarded.
  change (V2.parseTime L) with (V3.parseTime L).
  destruct (V3.parseTime L (inc_UpdatedAt inc)); [reflexivity|].
  rewrite (V2_firstParsed_newest HL).
  destruct (inc_IncidentUpdates inc) as [|u us]; cbn [length Nat.eqb].
  - now destruct (V3.parseTime L (inc_CreatedAt inc)).
  - now destruct (newestParsed (V3.parseTime L) (u :: us)).
Qed.

End KnownTimestamp.

(** C2, counterexample: an incident created on January 2, with no top-level
    update time and one update whose timestamp is empty, has the zero Time
    as its known timestamp in both programs, not its [createdAt]; and
    [incidentTime] of [client.go], line 136, takes the first update of the
    feed that parses, which is not the newest when the feed lists the oldest
    update first. *)
Lemma incidentTime_ignores_createdAt :
  V3.incidentTime stdgo Fx.stale = time.zero /\
  V2.incidentTime stdgo Fx.stale = time.zero /\
  knownTimestamp (V3.parseTime stdgo) Fx.stale = 63839750400000000000 /\
  V3.incidentTime stdgo Fx.stale <> knownTimestamp (V3.parseTime stdgo) Fx.stale /\
  V2.incidentTime stdgo Fx.stale <> knownTimestamp (V2.parseTime stdgo) Fx.stale /\
  V3.incidentTime stdgo Fx.oldest_first = 63839664000000000000 /\
  knownTimestamp (V3.parseTime stdgo) Fx.oldest_first = 63839750400000000000.
Proof.
  split_and!; try reflexivity; vm_compute; discriminate.
Qed.

(** C2, amended: for every incident, the known timestamp is the parsed
    [updatedAt] when that parses; otherwise, for an incident without
    updates, the parsed [createdAt], or the zero Time when that does not
    parse; otherwise, for an incident with updates, the timestamp of an
    update that parses, or the zero Time when none does ([createdAt] is
    then not consulted).  The update chosen by the 0.2.0 program is the
    newest one that parses; the one chosen by [client.go], line 136, is the
    first one in feed order that parses.  The 0.2.0 program agrees with the
    chain [updatedAt], newest update, [createdAt], zero on every incident
    but those with an unparseable [updatedAt] and updates none of which
    parses. *)
Theorem incidentTime_known (L : golib) (HL : sort_contract L) (inc : incident) :
  let parse := V3.parseTime L in
  let updates := inc_IncidentUpdates inc in
  (forall t, parse (inc_UpdatedAt inc) = Some t ->
     V3.incidentTime L inc = t /\ V2.incidentTime L inc = t) /\
  (parse (inc_UpdatedAt inc) = None -> updates = [] ->
     V3.incidentTime L inc = default time.zero (parse (inc_CreatedAt inc)) /\
     V2.incidentTime L inc = default time.zero (parse (inc_CreatedAt inc))) /\
  (parse (inc_UpdatedAt inc) = None -> updates <> [] ->
     none_parses parse updates ->
     V3.incidentTime L inc = time.zero /\ V2.incidentTime L inc = time.zero) /\
  (parse (inc_UpdatedAt inc) = None ->
     forall pre u post t,
       updates = pre ++ u :: post -> none_parses parse pre ->
       parse (upd_CreatedAt u) = Some t ->
       V3.incidentTime L inc = t) /\
  (parse (inc_UpdatedAt inc) = None ->
     forall m, newestParsed parse updates = Some m ->
       V2.incidentTime L inc = m /\
       (exists u, In u updates /\ parse (upd_CreatedAt u) = Some m) /\
       (forall u t, In u updates -> parse (upd_CreatedAt u) = Some t -> t <= m)) /\
  V2.incidentTime L inc = knownTimestamp_guarded parse inc /\
  (~ (parse (inc_UpdatedAt inc) = None /\ updates <> [] /\ none_parses parse updates) ->
     V2.incidentTime L inc = knownTimestamp parse inc).
Proof.
  intros parse updates.
  assert (HG := V2_incidentTime_guarded L HL inc). fold parse in HG.
  split_and!.
  - intros t Ht. rewrite HG. unfold V3.incidentTime, knownTimestamp_guarded.
    fold parse. now rewrite Ht.
  - intros Hu He. rewrite HG. unfold V3.incidentTime, knownTimestamp_guarded.
    fold parse updates. rewrite Hu, He. simpl.
    now destruct (parse (inc_CreatedAt inc)).
  - intros Hu Hne Hn. rewrite HG. unfold V3.incidentTime, knownTimestamp_guarded.
    fold parse updates. rewrite Hu.
    rewrite (V3_firstParsed_none L updates Hn).
    apply newestParsed_none in Hn. rewrite Hn.
    destruct updates; [congruence|]. auto.
  - intros Hu pre u post t He Hn Hp. unfold V3.incidentTime.
    fold parse updates. rewrite Hu, He.
    rewrite (V3_firstParsed_feed L pre post u t Hn Hp).
    now destruct pre.
  - intros Hu m Hm. split_and!.
    + rewrite HG. unfold knownTimestamp_guarded. fold updates. rewrite Hu.
      destruct updates; [discriminate|]. now rewrite Hm.
    + now apply newestParsed_witness.
    + intros u t Hin Hp.
      destruct (newestParsed_upper parse updates u t Hin Hp) as (m' & Hm' & Hle).
      congruence.
  - exact HG.
  - intros Hnot. rewrite HG. unfold knownTimestamp_guarded, knownTimestamp.
    fold updates.
    destruct (parse (inc_UpdatedAt inc)) eqn:Hu; [reflexivity|].
    destruct updates as [|u us] eqn:E; [reflexivity|].
    destruct (newestParsed parse (u :: us)) eqn:Hn; [reflexivity|].
    exfalso. apply Hnot. split_and!; [reflexivity|congruence|].
    now apply newestParsed_none.
Qed.

(** C2, witness: the incident whose feed lists the oldest update first. *)
Lemma incidentTime_known_witness :
  sort_contract stdgo /\
  V2.incidentTime stdgo Fx.oldest_first =
  knownTimestamp_guarded (V3.parseTime stdgo) Fx.oldest_first.
Proof.
  split; [exact stdgo_contract|].
  exact (proj1 (proj2 (proj2 (proj2 (proj2 (proj2
    (incidentTime_known stdgo stdgo_contract Fx.oldest_first))))))).
Defined.

(* ================================================================== *)
(** * Recently resolved incidents                                      *)
(* ================================================================== *)

Section Resolved.
Context (L : golib).

(** The loop, iteration by iteration, appends [resolvedLoop] to [results]. *)
Lemma resolvedStep_fold (cutoff : Time) (incidents : list incident) :
  forall (results : list incident) (seen : gset string),
    fst (fold_left (V3.resolvedStep L cutoff) incidents (results, seen)) =
    results ++ resolvedLoop L cutoff seen incidents.
Proof.
  induction incidents as [|inc rest IH]; intros results seen; simpl.
  - now rewrite app_nil_r.
  - destruct (negb (strings_EqualFold L (inc_Status inc) "resolved")); [apply IH|].
    destruct (negb (String.eqb (inc_ID inc) "") && bool_decide (inc_ID inc ∈ seen));
      [apply IH|].
    destruct (negb (time.IsZero (V3.incidentTime L inc)) &&
              time.Before (V3.incidentTime L inc) cutoff); [apply IH|].
    rewrite IH. now rewrite <- app_assoc.
Qed.

Lemma recentResolved_loop (now : Time) (lookback : Z) (incidents : list incident) :
  V3.recentResolved L now lookback incidents =
  resolvedLoop L (time.Add now (- lookback)) ∅ incidents.
Proof. unfold V3.recentResolved. cbv zeta. now rewrite resolvedStep_fold. Qed.

(** What the loop keeps was in the feed, is resolved, is not older than the
    cutoff unless its time is zero, and carries an id not yet seen. *)
Lemma resolvedLoop_in (cutoff : Time) (incidents : list incident) :
  forall (seen : gset string) (inc : incident),
    In inc (resolvedLoop L cutoff seen incidents) ->
    In inc incidents /\
    strings_EqualFold L (inc_Status inc) "resolved" = true /\
    (V3.incidentTime L inc = time.zero \/ within cutoff (V3.incidentTime L inc)) /\
    (inc_ID inc <> "" -> inc_ID inc ∉ seen).
Proof.
  induction incidents as [|x rest IH]; intros seen inc; simpl; [tauto|].
  destruct (strings_EqualFold L (inc_Status x) "resolved") eqn:Hres; simpl.
  2:{ intros H. destruct (IH _ _ H) as (? & ? & ? & ?). auto. }
  destruct (String.eqb_spec (inc_ID x) ""); simpl.
  - destruct (negb (time.IsZero (V3.incidentTime L x)) &&
              time.Before (V3.incidentTime L x) cutoff) eqn:Ht.
    + intros H. destruct (IH _ _ H) as (? & ? & ? & ?). auto.
    + intros [<-|H].
      * split_and!; [now left | assumption | | congruence].
        unfold time.IsZero, time.Before, within, time.zero in *.
        revert Ht. zcases.
      * destruct (IH _ _ H) as (? & ? & ? & ?). auto.
  - case_bool_decide as Hseen.
    + intros H. destruct (IH _ _ H) as (? & ? & ? & ?). auto.
    + destruct (negb (time.IsZero (V3.incidentTime L x)) &&
                time.Before (V3.incidentTime L x) cutoff) eqn:Ht.
      * intros H. destruct (IH _ _ H) as (? & ? & ? & Hn).
        split_and!; auto. intros Hid Hs. apply (Hn Hid), elem_of_union. now right.
      * intros [<-|H].
        -- split_and!; [now left | assumption | | intros _; assumption].
           unfold time.IsZero, time.Before, within, time.zero in *.
           revert Ht. zcases.
        -- destruct (IH _ _ H) as (? & ? & ? & Hn).
           split_and!; auto. intros Hid Hs. apply (Hn Hid), elem_of_union. now right.
Qed.

(** An id met before is never kept again. *)
Lemma resolvedLoop_seen (cutoff : Time) (incidents : list incident) :
  forall (seen : gset string) (id : string),
    id <> "" -> id ∈ seen ->
    count_id id (resolvedLoop L cutoff seen incidents) = 0%nat.
Proof.
  intros seen id Hid Hin.
  unfold count_id.
  destruct (List.filter (fun i => String.eqb (inc_ID i) id)
              (resolvedLoop L cutoff seen incidents)) as [|x l] eqn:E;
    [reflexivity|].
  assert (Hx : In x (x :: l)) by now left.
  rewrite <- E in Hx. apply List.filter_In in Hx as [Hx Hxid].
  apply String.eqb_eq in Hxid. subst id.
  apply resolvedLoop_in in Hx as (_ & _ & _ & Hn). now specialize (Hn Hid).
Qed.

(** At most one incident per non-empty id is kept. *)
Lemma resolvedLoop_unique (cutoff : Time) (incidents : list incident) :
  forall (seen : gset string) (id : string),
    id <> "" ->
    (count_id id (resolvedLoop L cutoff seen incidents) <= 1)%nat.
Proof.
  induction incidents as [|x rest IH]; intros seen id Hid; simpl.
  - unfold count_id. simpl. lia.
  - destruct (strings_EqualFold L (inc_Status x) "resolved"); simpl; [|now apply IH].
    destruct (String.eqb_spec (inc_ID x) ""); simpl.
    + destruct (negb (time.IsZero (V3.incidentTime L x)) &&
                time.Before (V3.incidentTime L x) cutoff); [now apply IH|].
      unfold count_id. simpl.
      destruct (String.eqb_spec (inc_ID x) id); [congruence|]. now apply IH.
    + case_bool_decide as Hseen; [now apply IH|].
      destruct (negb (time.IsZero (V3.incidentTime L x)) &&
                time.Before (V3.incidentTime L x) cutoff); [now apply IH|].
      unfold count_id. simpl.
      destruct (String.eqb_spec (inc_ID x) id) as [E|E]; [|now apply IH].
      simpl. fold (count_id id (resolvedLoop L cutoff ({[inc_ID x]} ∪ seen) rest)).
      rewrite resolvedLoop_seen; [lia|assumption|].
      apply elem_of_union. left. now apply elem_of_singleton.
Qed.

(** Running the loop on its own result, from fewer ids seen, changes
    nothing. *)
Lemma resolvedLoop_fixed (cutoff : Time) (incidents : list incident) :
  forall seen seen' : gset string,
    seen' ⊆ seen ->
    resolvedLoop L cutoff seen' (resolvedLoop L cutoff seen incidents) =
    resolvedLoop L cutoff seen incidents.
Proof.
  induction incidents as [|x rest IH]; intros seen seen' Hsub; simpl; [reflexivity|].
  destruct (strings_EqualFold L (inc_Status x) "resolved") eqn:Hres; simpl;
    [|now apply IH].
  destruct (String.eqb_spec (inc_ID x) "") as [Hid|Hid]; simpl.
  - destruct (negb (time.IsZero (V3.incidentTime L x)) &&
              time.Before (V3.incidentTime L x) cutoff) eqn:Ht; [now apply IH|].
    simpl. rewrite Hres. simpl.
    destruct (String.eqb_spec (inc_ID x) ""); [|congruence]. simpl.
    rewrite Ht. f_equal. now apply IH.
  - case_bool_decide as Hseen; [now apply IH|].
    destruct (negb (time.IsZero (V3.incidentTime L x)) &&
              time.Before (V3.incidentTime L x) cutoff) eqn:Ht.
    + apply IH. intros y Hy. apply elem_of_union. right. now apply Hsub.
    + simpl. rewrite Hres. simpl.
      destruct (String.eqb_spec (inc_ID x) ""); [congruence|]. simpl.
      rewrite bool_decide_eq_false_2 by (intros Hs; now apply Hseen, Hsub).
      rewrite Ht. f_equal. apply IH. now apply union_mono_l.
Qed.

(** The incident kept for an id is the first resolved one of the feed with
    that id. *)
Lemma resolvedLoop_first (cutoff : Time) (incidents : list incident) :
  forall (seen : gset string) (inc : incident),
    inc_ID inc <> "" ->
    In inc (resolvedLoop L cutoff seen incidents) ->
    exists pre post,
      incidents = pre ++ inc :: post /\
      Forall (fun x => strings_EqualFold L (inc_Status x) "resolved" = true ->
                       inc_ID x <> inc_ID inc) pre.
Proof.
  induction incidents as [|x rest IH]; intros seen inc Hid; simpl; [tauto|].
  assert (Hskip : forall seen0,
    (strings_EqualFold L (inc_Status x) "resolved" = true -> inc_ID x <> inc_ID inc) ->
    In inc (resolvedLoop L cutoff seen0 rest) ->
    exists pre post, x :: rest = pre ++ inc :: post /\
      Forall (fun x => strings_EqualFold L (inc_Status x) "resolved" = true ->
                       inc_ID x <> inc_ID inc) pre).
  { intros seen0 Hx H. destruct (IH _ _ Hid H) as (pre & post & -> & Hpre).
    exists (x :: pre), post. split; [reflexivity|]. now constructor. }
  assert (Hkeep : exists pre post, x :: rest = pre ++ x :: post /\
      Forall (fun y => strings_EqualFold L (inc_Status y) "resolved" = true ->
                       inc_ID y <> inc_ID x) pre).
  { exists [], rest. split; [reflexivity|constructor]. }
  destruct (strings_EqualFold L (inc_Status x) "resolved") eqn:Hres; simpl.
  2:{ apply Hskip. discriminate. }
  destruct (String.eqb_spec (inc_ID x) "") as [Hx|Hx]; simpl.
  - destruct (negb (time.IsZero (V3.incidentTime L x)) &&
              time.Before (V3.incidentTime L x) cutoff).
    + apply Hskip. congruence.
    + intros [<-|H]; [exact Hkeep|]. revert H. apply Hskip. congruence.
  - case_bool_decide as Hseen.
    + intros H. apply (Hskip seen); [|assumption].
      intros _ E. apply resolvedLoop_in in H as (_ & _ & _ & Hn).
      specialize (Hn Hid). congruence.
    + destruct (negb (time.IsZero (V3.incidentTime L x)) &&
                time.Before (V3.incidentTime L x) cutoff).
      * intros H. apply (Hskip ({[inc_ID x]} ∪ seen)); [|assumption].
        intros _ E. apply resolvedLoop_in in H as (_ & _ & _ & Hn).
        apply (Hn Hid), elem_of_union. left. now apply elem_of_singleton.
      * intros [<-|H]; [exact Hkeep|].
        apply (Hskip ({[inc_ID x]} ∪ seen)); [|assumption].
        intros _ E. apply resolvedLoop_in in H as (_ & _ & _ & Hn).
        apply (Hn Hid), elem_of_union. left. now apply elem_of_singleton.
Qed.

(** An incident whose timestamps are all empty has the zero Time. *)
Lemma incidentTime_all_empty (inc : incident) :
  all_empty inc -> V3.incidentTime L inc = time.zero.
Proof.
  intros (Hu & Hc & Hall). unfold V3.incidentTime. rewrite Hu, Hc.
  rewrite parseTime_empty.
  destruct (inc_IncidentUpdates inc) as [|u us]; [reflexivity|].
  cbn [length Nat.eqb]. rewrite V3_firstParsed_none; [reflexivity|].
  unfold none_parses. eapply Forall_impl; [exact Hall|].
  simpl. intros x ->. apply parseTime_empty.
Qed.

(** The Resolved list of a built report. *)
Lemma buildReport_resolved (w : world) (cfg : V3.config) (r : V3.report) :
  fst (run_io (V3.buildReport L w cfg)) = Ok r ->
  (V3.showResolved cfg || String.eqb (V3.output cfg) V3.outputJSON = false /\
   V3.rep_Resolved r = []) \/
  (V3.showResolved cfg || String.eqb (V3.output cfg) V3.outputJSON = true /\
   exists incs, get_incidents w = Ok incs /\
     V3.rep_Resolved r =
     V3.sortIncidents L (V3.recentResolved L (time_Now w) V3.resolvedLookback incs)).
Proof.
  run_buildReport.
  destruct (get_components w) as [comps|e]; simpl; [|discriminate].
  destruct (V3.filterComponents L comps) as [|c cs]; simpl; [discriminate|].
  destruct (V3.showDetails cfg), (V3.showResolved cfg),
    (String.eqb (V3.output cfg) V3.outputJSON),
    (get_unresolved w), (get_incidents w) as [incs|e']; simpl;
    try discriminate; intros [= <-]; simpl; eauto.
Qed.

(** The Active list of a built report. *)
Lemma buildReport_active (w : world) (cfg : V3.config) (r : V3.report) :
  fst (run_io (V3.buildReport L w cfg)) = Ok r ->
  (V3.showDetails cfg || String.eqb (V3.output cfg) V3.outputJSON = false /\
   V3.rep_Active r = []) \/
  (V3.showDetails cfg || String.eqb (V3.output cfg) V3.outputJSON = true /\
   exists incs, get_unresolved w = Ok incs /\
     V3.rep_Active r = V3.sortIncidents L incs).
Proof.
  run_buildReport.
  destruct (get_components w) as [comps|e]; simpl; [|discriminate].
  destruct (V3.filterComponents L comps) as [|c cs]; simpl; [discriminate|].
  destruct (V3.showDetails cfg), (V3.showResolved cfg),
    (String.eqb (V3.output cfg) V3.outputJSON),
    (get_unresolved w) as [incs|e'], (get_incidents w); simpl;
    try discriminate; intros [= <-]; simpl; eauto.
Qed.

Lemma count_id_perm (id : string) (l l' : list incident) :
  Permutation l l' -> count_id id l = count_id id l'.
Proof.
  intros H. unfold count_id. apply Permutation_length.
  induction H as [|x l l' _ IH|x y l|l l' l'' _ IH1 _ IH2]; simpl.
  - constructor.
  - destruct (String.eqb (inc_ID x) id); [constructor|]; assumption.
  - destruct (String.eqb (inc_ID x) id), (String.eqb (inc_ID y) id);
      try apply perm_swap; reflexivity.
  - etransitivity; eassumption.
Qed.

(** The first resolved incident of the feed with its id, when its time is
    zero or within the window, is kept whatever precedes it. *)
Lemma resolvedLoop_keeps_first (cutoff : Time) (inc : incident)
    (post : list incident) :
  strings_EqualFold L (inc_Status inc) "resolved" = true ->
  V3.incidentTime L inc = time.zero \/ within cutoff (V3.incidentTime L inc) ->
  forall (pre : list incident) (seen : gset string),
    (inc_ID inc <> "" -> (inc_ID inc ∉ seen) /\ id_unused L inc pre) ->
    In inc (resolvedLoop L cutoff seen (pre ++ inc :: post)).
Proof.
  intros Hres Ht.
  assert (Hok : negb (time.IsZero (V3.incidentTime L inc)) &&
                time.Before (V3.incidentTime L inc) cutoff = false).
  { unfold time.IsZero, time.Before, within, time.zero in *. destruct Ht; zcases. }
  induction pre as [|x pre IH]; intros seen Hid; simpl.
  - rewrite Hres. simpl.
    destruct (String.eqb_spec (inc_ID inc) "") as [E|E]; simpl.
    + rewrite Hok. now left.
    + destruct (Hid E) as [Hs _]. rewrite bool_decide_eq_false_2 by assumption.
      rewrite Hok. now left.
  - assert (Hpre : forall seen0,
              (inc_ID inc <> "" -> inc_ID inc ∉ seen0) ->
              In inc (resolvedLoop L cutoff seen0 (pre ++ inc :: post))).
    { intros seen0 Hs. apply IH. intros E. split; [now apply Hs|].
      destruct (Hid E) as [_ Hu]. unfold id_unused in *.
      now apply Forall_cons_iff in Hu as [_ Hu]. }
    destruct (strings_EqualFold L (inc_Status x) "resolved") eqn:Hx; simpl.
    2:{ apply Hpre. intros E. now apply Hid. }
    destruct (negb (String.eqb (inc_ID x) "") && bool_decide (inc_ID x ∈ seen)).
    { apply Hpre. intros E. now apply Hid. }
    assert (Hnew : In inc (resolvedLoop L cutoff
              (if negb (String.eqb (inc_ID x) "") then {[inc_ID x]} ∪ seen else seen)
              (pre ++ inc :: post))).
    { apply Hpre. intros E. destruct (Hid E) as [Hs Hu].
      apply Forall_cons_iff in Hu as [Hxi _]. specialize (Hxi Hx).
      destruct (negb (String.eqb (inc_ID x) "")); [|assumption].
      intros Hin. apply elem_of_union in Hin as [Hin|Hin]; [|contradiction].
      apply elem_of_singleton in Hin. congruence. }
    destruct (negb (time.IsZero (V3.incidentTime L x)) &&
              time.Before (V3.incidentTime L x) cutoff); [assumption|now right].
Qed.

End Resolved.

(** C3, counterexample: a resolved incident whose timestamps are all empty
    has the zero Time, which is strictly before the cutoff, and is in the
    Resolved list of the report all the same. *)
Lemma resolved_keeps_undated :
  exists r : V3.report,
    fst (run_io (V3.buildReport stdgo Fx.world0 Fx.cfg_resolved_only)) = Ok r /\
    all_empty Fx.undated /\
    time.Before (V3.incidentTime stdgo Fx.undated)
      (time.Add (time_Now Fx.world0) (- V3.resolvedLookback)) = true /\
    In Fx.undated (V3.rep_Resolved r).
Proof.
  eexists. split; [reflexivity|]. split_and!.
  - repeat split. constructor.
  - reflexivity.
  - simpl. right. left. reflexivity.
Qed.

(** C3, amended: the Resolved list of every built report contains only
    incidents whose status equals "resolved" up to case and whose known
    timestamp is either the zero Time (nothing parsed) or not strictly before
    now minus the lookback window of 7 days.  An incident whose timestamps
    are all empty has the zero Time, and the filter is total.  When the
    full incident list is fetched, every resolved incident of the feed whose
    known timestamp is zero or within the window is kept in the list, not
    excluded, provided it has no id or no earlier resolved incident of the
    feed carries its id. *)
Theorem resolved_list_window (L : golib) (HL : sort_contract L) (w : world)
    (cfg : V3.config) (r : V3.report) :
  fst (run_io (V3.buildReport L w cfg)) = Ok r ->
  let cutoff := time.Add (time_Now w) (- V3.resolvedLookback) in
  (forall inc : incident,
     In inc (V3.rep_Resolved r) ->
     strings_EqualFold L (inc_Status inc) "resolved" = true /\
     (V3.incidentTime L inc = time.zero \/ within cutoff (V3.incidentTime L inc))) /\
  (forall inc : incident, all_empty inc -> V3.incidentTime L inc = time.zero) /\
  (forall (pre post : list incident) (inc : incident),
     V3.showResolved cfg || String.eqb (V3.output cfg) V3.outputJSON = true ->
     get_incidents w = Ok (pre ++ inc :: post) ->
     strings_EqualFold L (inc_Status inc) "resolved" = true ->
     (inc_ID inc <> "" -> id_unused L inc pre) ->
     V3.incidentTime L inc = time.zero \/ within cutoff (V3.incidentTime L inc) ->
     In inc (V3.rep_Resolved r)) /\
  V3.resolvedLookback = 7 * 24 * 3600 * time.Second.
Proof.
  intros Hr cutoff.
  destruct (buildReport_resolved L w cfg r Hr) as [[Hoff Hnil]|(Hon & incs & Hi & Hres)].
  - split_and!.
    + rewrite Hnil. intros inc [].
    + apply incidentTime_all_empty.
    + intros pre post inc Hon. congruence.
    + reflexivity.
  - assert (Hp : Permutation
                   (V3.recentResolved L (time_Now w) V3.resolvedLookback incs)
                   (V3.rep_Resolved r)).
    { rewrite Hres. apply (sort_perm L HL). }
    rewrite recentResolved_loop in Hp.
    split_and!.
    + intros inc Hin. apply (Permutation_in _ (Permutation_sym Hp)) in Hin.
      apply resolvedLoop_in in Hin as (_ & H1 & H2 & _). auto.
    + apply incidentTime_all_empty.
    + intros pre post inc _ Hi' Hst Hid Ht.
      assert (incs = pre ++ inc :: post) as -> by congruence.
      apply (Permutation_in _ Hp).
      apply resolvedLoop_keeps_first; try assumption.
      intros E. split; [apply not_elem_of_empty | now apply Hid].
    + reflexivity.
Qed.

(** C3, witness: the run with the resolved flag on the fixture world, whose
    feed is the undated incident, the recent one with the id "r1" and the
    old one: what is listed is resolved and not older than the window, and
    the recent incident is listed. *)
Lemma resolved_list_window_witness :
  sort_contract stdgo /\
  (exists r : V3.report,
     fst (run_io (V3.buildReport stdgo Fx.world0 Fx.cfg_resolved_only)) = Ok r /\
     (forall inc : incident,
        In inc (V3.rep_Resolved r) ->
        strings_EqualFold stdgo (inc_Status inc) "resolved" = true /\
        (V3.incidentTime stdgo inc = time.zero \/
         within (time.Add (time_Now Fx.world0) (- V3.resolvedLookback))
           (V3.incidentTime stdgo inc))) /\
     In Fx.recent (V3.rep_Resolved r)).
Proof.
  split; [exact stdgo_contract|].
  eexists. split; [reflexivity|].
  destruct (resolved_list_window stdgo stdgo_contract Fx.world0
              Fx.cfg_resolved_only _ eq_refl) as (H1 & _ & H3 & _).
  split; [exact H1|].
  apply (H3 [Fx.undated] [Fx.old] Fx.recent).
  - reflexivity.
  - reflexivity.
  - reflexivity.
  - intros _. constructor; [|constructor]. intros _. discriminate.
  - right. unfold within. vm_compute. discriminate.
Defined.

(** C5, counterexample: the Active list of a built report holds both
    unresolved incidents of the feed that carry the id "dup". *)
Lemma active_list_keeps_duplicates :
  exists r : V3.report,
    fst (run_io (V3.buildReport stdgo Fx.world0 Fx.cfg_details)) = Ok r /\
    count_id "dup" (V3.rep_Active r) = 2%nat.
Proof. eexists. split; reflexivity. Qed.

(** C5, amended: in the Resolved list of every built report, for every
    non-empty id, at most one incident with that id appears, and it is the
    first resolved incident of the feed with that id; the Active list is
    not deduplicated.  Applying the filter of the resolved incidents twice
    yields the same list as applying it once, for every incident list. *)
Theorem resolved_list_dedup (L : golib) (HL : sort_contract L) :
  (forall (w : world) (cfg : V3.config) (r : V3.report),
     fst (run_io (V3.buildReport L w cfg)) = Ok r ->
     forall id : string, id <> "" -> (count_id id (V3.rep_Resolved r) <= 1)%nat) /\
  (forall (now : Time) (lookback : Z) (incs : list incident) (inc : incident),
     inc_ID inc <> "" ->
     In inc (V3.recentResolved L now lookback incs) ->
     exists pre post,
       incs = pre ++ inc :: post /\
       Forall (fun x => strings_EqualFold L (inc_Status x) "resolved" = true ->
                        inc_ID x <> inc_ID inc) pre) /\
  (forall (now : Time) (lookback : Z) (incs : list incident),
     V3.recentResolved L now lookback (V3.recentResolved L now lookback incs) =
     V3.recentResolved L now lookback incs).
Proof.
  split_and!.
  - intros w cfg r Hr id Hid.
    destruct (buildReport_resolved L w cfg r Hr) as [[_ ->]|(_ & incs & _ & ->)].
    + unfold count_id. simpl. lia.
    + unfold V3.sortIncidents.
      rewrite <- (count_id_perm id _ _ (sort_perm L HL _ _ _)).
      rewrite recentResolved_loop. now apply resolvedLoop_unique.
  - intros now lookback incs inc Hid Hin. rewrite recentResolved_loop in Hin.
    eapply resolvedLoop_first; eassumption.
  - intros now lookback incs. rewrite !recentResolved_loop.
    now apply resolvedLoop_fixed.
Qed.

(** C5, witness: the resolved feed of the fixture world, filtered twice. *)
Lemma resolved_list_dedup_witness :
  sort_contract stdgo /\
  V3.recentResolved stdgo Fx.now V3.resolvedLookback
    (V3.recentResolved stdgo Fx.now V3.resolvedLookback
       [Fx.undated; Fx.recent; Fx.recent; Fx.old]) =
  V3.recentResolved stdgo Fx.now V3.resolvedLookback
    [Fx.undated; Fx.recent; Fx.recent; Fx.old].
Proof.
  split; [exact stdgo_contract|].
  exact (proj2 (proj2 (resolved_list_dedup stdgo stdgo_contract))
           Fx.now V3.resolvedLookback [Fx.undated; Fx.recent; Fx.recent; Fx.old]).
Defined.

(* ================================================================== *)
(** * The updates shown                                                *)
(* ================================================================== *)

Lemma StronglySorted_app_parts {A : Type} (R : A -> A -> Prop) (l1 l2 : list A) :
  StronglySorted R (l1 ++ l2) ->
  StronglySorted R l1 /\ StronglySorted R l2 /\
  (forall a b, In a l1 -> In b l2 -> R a b).
Proof.
  induction l1 as [|x l1 IH]; simpl; intros H.
  - split_and!; [constructor | assumption | intros a b []].
  - apply StronglySorted_inv in H as [Hs Hx].
    destruct (IH Hs) as (H1 & H2 & H12).
    apply Forall_app in Hx as [Hx1 Hx2].
    split_and!; [now constructor | assumption |].
    intros a b [<-|Ha] Hb; [|now apply H12].
    rewrite List.Forall_forall in Hx2. now apply Hx2.
Qed.

Lemma V3_summarizeUpdates_take (updates : list incidentUpdate) :
  V3.summarizeUpdates updates = take 3 updates.
Proof.
  unfold V3.summarizeUpdates, V3.maxIncidentUpdates.
  destruct (Nat.leb_spec (length updates) 3); [|reflexivity].
  symmetry. now apply take_ge.
Qed.

Lemma V2_summarizeUpdates_take (L : golib) (updates : list incidentUpdate) :
  V2.summarizeUpdates L updates = take 3 (V2.sortIncidentUpdates L updates).
Proof.
  unfold V2.summarizeUpdates, V2.maxIncidentUpdates. cbv zeta.
  destruct (Nat.ltb_spec 3 (length (V2.sortIncidentUpdates L updates)));
    [reflexivity|].
  symmetry. now apply take_ge.
Qed.

Lemma V2_update_less_stamp (L : golib) (a b : incidentUpdate) :
  V2.update_less L b a = false <->
  stamp (V3.parseTime L) b <= stamp (V3.parseTime L) a.
Proof.
  unfold V2.update_less, V2.parsedOrZero, stamp, time.After.
  change (V2.parseTime L) with (V3.parseTime L).
  destruct (V3.parseTime L (upd_CreatedAt a)), (V3.parseTime L (upd_CreatedAt b));
    simpl; rewrite Z.ltb_ge; reflexivity.
Qed.

(** C4, counterexample: [summarizeUpdates] of [render.go] shows the two
    updates of the feed in feed order, the older one first. *)
Lemma summarizeUpdates_feed_order :
  V3.summarizeUpdates [Fx.early; Fx.late] = [Fx.early; Fx.late] /\
  stamp (V3.parseTime stdgo) Fx.early < stamp (V3.parseTime stdgo) Fx.late /\
  ~ newest_first (V3.parseTime stdgo) (V3.summarizeUpdates [Fx.early; Fx.late]).
Proof.
  split_and!; [reflexivity | reflexivity |].
  intros H. change (V3.summarizeUpdates [Fx.early; Fx.late])
    with [Fx.early; Fx.late] in H.
  apply StronglySorted_inv in H as [_ H]. apply Forall_inv in H.
  assert (Ha : stamp (V3.parseTime stdgo) Fx.early = 63839664000000000000)
    by reflexivity.
  assert (Hb : stamp (V3.parseTime stdgo) Fx.late = 63839750400000000000)
    by reflexivity.
  rewrite Ha, Hb in H. lia.
Qed.

(** C4, amended: for every incident, the updates shown by [render.go] are
    the first three updates in feed order (all of them when there are at
    most three), without sorting.  The updates shown by the 0.2.0 program in
    [client.go] are the first three of the updates sorted by parsed
    timestamp descending, an unparseable timestamp counting as the zero
    Time: at most three, most recent first, and no update left out is more
    recent than one shown. *)
Theorem summarizeUpdates_shown (L : golib) (HL : sort_contract L)
    (updates : list incidentUpdate) :
  V3.summarizeUpdates updates = take 3 updates /\
  V2.summarizeUpdates L updates = take 3 (V2.sortIncidentUpdates L updates) /\
  length (V2.summarizeUpdates L updates) = Nat.min 3 (length updates) /\
  newest_first (V3.parseTime L) (V2.summarizeUpdates L updates) /\
  exists rest : list incidentUpdate,
    Permutation updates (V2.summarizeUpdates L updates ++ rest) /\
    forall u v, In u (V2.summarizeUpdates L updates) -> In v rest ->
      stamp (V3.parseTime L) v <= stamp (V3.parseTime L) u.
Proof.
  assert (Hp : Permutation updates (V2.sortIncidentUpdates L updates))
    by apply (sort_perm L HL).
  assert (Hs : StronglySorted
                 (fun a b => stamp (V3.parseTime L) b <= stamp (V3.parseTime L) a)
                 (V2.sortIncidentUpdates L updates)).
  { eapply StronglySorted_iff; [apply V2_update_less_stamp|].
    apply (sort_sorted L HL), strict_weak_update_less. }
  rewrite V2_summarizeUpdates_take.
  rewrite <- (take_drop 3 (V2.sortIncidentUpdates L updates)) in Hs.
  apply StronglySorted_app_parts in Hs as (H1 & _ & H12).
  split_and!.
  - apply V3_summarizeUpdates_take.
  - reflexivity.
  - rewrite length_take. rewrite <- (Permutation_length Hp). reflexivity.
  - exact H1.
  - exists (drop 3 (V2.sortIncidentUpdates L updates)). split.
    + now rewrite take_drop.
    + intros u v Hu Hv. now apply H12.
Qed.

(** C4, witness: the feed that lists the oldest update first. *)
Lemma summarizeUpdates_shown_witness :
  sort_contract stdgo /\
  V2.summarizeUpdates stdgo [Fx.early; Fx.late] = [Fx.late; Fx.early] /\
  newest_first (V3.parseTime stdgo) (V2.summarizeUpdates stdgo [Fx.early; Fx.late]).
Proof.
  split; [exact stdgo_contract|]. split; [reflexivity|].
  exact (proj1 (proj2 (proj2 (proj2
    (summarizeUpdates_shown stdgo stdgo_contract [Fx.early; Fx.late]))))).
Defined.

(* ================================================================== *)
(** * The bounded-retry fetch                                          *)
(* ================================================================== *)

Section Fetch.
Context (n : V2.net) (attempts : Z).

(** The value left in [lastErr] by one attempt. *)
Lemma attempt_error_failed (attempt : Z) (r : V2.doResult) :
  failed r = true <->
  match r with
  | V2.DoErr msg => Some (ErrWrap "fetch" (ErrNew msg))
  | V2.DoResp code decodes => V2.onResponse attempts attempt code decodes
  end <> None.
Proof.
  destruct r as [msg|code decodes]; simpl; [intuition congruence|].
  unfold V2.onResponse.
  destruct (code =? V2.StatusOK); simpl.
  - destruct decodes; simpl; intuition congruence.
  - destruct (negb (V2.shouldRetryStatus code) || (attempt =? attempts));
      intuition congruence.
Qed.

Lemma retryable_failed (r : V2.doResult) : retryable r = true -> failed r = true.
Proof.
  destruct r as [msg|code decodes]; simpl; [reflexivity|].
  destruct (code =? V2.StatusOK); simpl; [tauto|reflexivity].
Qed.

(** The first event of the loop is the request of its first attempt. *)
Lemma attemptLoop_head (fuel : nat) (attempt : Z) (lastErr : option error) :
  (0 < fuel)%nat -> attempt <= attempts -> V2.newRequest_ok n attempt = true ->
  In (V2.Request attempt) (snd (V2.attemptLoop n fuel attempts attempt lastErr)).
Proof.
  intros Hf Ha Hn. destruct fuel as [|fuel]; [lia|]. simpl.
  destruct (Z.leb_spec attempt attempts) as [Hle|Hgt]; [|lia]. simpl. rewrite Hn. simpl.
  destruct (match V2.client_Do n attempt with
            | V2.DoErr msg => Some (ErrWrap "fetch" (ErrNew msg))
            | V2.DoResp code decodes => V2.onResponse attempts attempt code decodes
            end); [|now left].
  destruct (attempt =? attempts); [now left|].
  destruct (V2.waitForRetry n attempt); simpl; [|now left].
  destruct (V2.attemptLoop n fuel attempts (attempt + 1) _). now left.
Qed.

(** The shape of every trace: requests and sleeps of the attempts from
    [attempt] on, at most one request per unit of fuel. *)
Lemma attemptLoop_trace (fuel : nat) :
  forall (attempt : Z) (lastErr : option error),
    let tr := snd (V2.attemptLoop n fuel attempts attempt lastErr) in
    (requests tr <= fuel)%nat /\
    (forall k, In (V2.Request k) tr -> attempt <= k <= attempts) /\
    (forall k b, In (V2.Sleep k b) tr ->
       attempt <= k < attempts /\ b = V2.backoffFor k).
Proof.
  induction fuel as [|fuel IH]; intros attempt lastErr; simpl.
  - split_and!; [lia | intros k [] | intros k b []].
  - destruct (Z.leb_spec attempt attempts) as [Hle|Hgt]; simpl;
      [|split_and!; [lia | intros k [] | intros k b []]].
    destruct (V2.newRequest_ok n attempt); simpl;
      [|split_and!; [lia | intros k [] | intros k b []]].
    destruct (match V2.client_Do n attempt with
              | V2.DoErr msg => Some (ErrWrap "fetch" (ErrNew msg))
              | V2.DoResp code decodes => V2.onResponse attempts attempt code decodes
              end) as [e|].
    2:{ simpl. split_and!; [lia | | intros k b [H|[]]; discriminate].
        intros k [[= <-]|[]]. lia. }
    destruct (Z.eqb_spec attempt attempts) as [Heq|Hneq].
    { simpl. split_and!; [lia | | intros k b [H|[]]; discriminate].
      intros k [[= <-]|[]]. lia. }
    destruct (V2.waitForRetry n attempt); simpl.
    2:{ split_and!; [lia | |].
        - intros k [[= <-]|[H|[]]]; [lia|discriminate].
        - intros k b [H|[[= <- <-]|[]]]; [discriminate|]. split; [lia|reflexivity]. }
    specialize (IH (attempt + 1) (Some e)).
    destruct (V2.attemptLoop n fuel attempts (attempt + 1) (Some e)) as [r tr].
    simpl in *. destruct IH as (IH1 & IH2 & IH3). split_and!.
    + lia.
    + intros k [[= <-]|[H|H]]; [lia|discriminate|]. specialize (IH2 k H). lia.
    + intros k b [H|[[= <- <-]|H]]; [discriminate| |].
      * split; [lia|reflexivity].
      * specialize (IH3 k b H). split; [lia|tauto].
Qed.

(** After a failed attempt that is not the last one, when the timer fires
    before the context is done, the next attempt is made. *)
Lemma attemptLoop_retry (fuel : nat) :
  forall (attempt : Z) (lastErr : option error) (k : Z),
    attempts - attempt + 1 <= Z.of_nat fuel ->
    In (V2.Request k) (snd (V2.attemptLoop n fuel attempts attempt lastErr)) ->
    k < attempts ->
    failed (V2.client_Do n k) = true ->
    V2.waitForRetry n k = true ->
    V2.newRequest_ok n (k + 1) = true ->
    In (V2.Sleep k (V2.backoffFor k))
       (snd (V2.attemptLoop n fuel attempts attempt lastErr)) /\
    In (V2.Request (k + 1)) (snd (V2.attemptLoop n fuel attempts attempt lastErr)).
Proof.
  induction fuel as [|fuel IH]; intros attempt lastErr k Hfuel; simpl; [tauto|].
  destruct (Z.leb_spec attempt attempts) as [Hle|Hgt]; simpl; [|tauto].
  destruct (V2.newRequest_ok n attempt); simpl; [|tauto].
  intros Hin Hk Hfail Hwait Hnext.
  destruct (Z.eq_dec k attempt) as [->|Hne].
  - apply (attempt_error_failed attempt) in Hfail.
    destruct (match V2.client_Do n attempt with
              | V2.DoErr msg => Some (ErrWrap "fetch" (ErrNew msg))
              | V2.DoResp code decodes => V2.onResponse attempts attempt code decodes
              end) as [e|]; [|congruence].
    destruct (Z.eqb_spec attempt attempts) as [Heq|Hneq]; [lia|].
    rewrite Hwait. simpl.
    assert (Hhead := attemptLoop_head fuel (attempt + 1) (Some e)).
    destruct (V2.attemptLoop n fuel attempts (attempt + 1) (Some e)) as [r tr].
    simpl in *. split; [right; now left|].
    right. right. apply Hhead; [lia | lia | assumption].
  - destruct (match V2.client_Do n attempt with
              | V2.DoErr msg => Some (ErrWrap "fetch" (ErrNew msg))
              | V2.DoResp code decodes => V2.onResponse attempts attempt code decodes
              end) as [e|].
    2:{ destruct Hin as [[= ->]|[]]. congruence. }
    destruct (Z.eqb_spec attempt attempts) as [Heq|Hneq].
    { destruct Hin as [[= ->]|[]]. congruence. }
    destruct (V2.waitForRetry n attempt); simpl in *.
    2:{ destruct Hin as [[= ->]|[H|[]]]; [congruence|discriminate]. }
    specialize (IH (attempt + 1) (Some e) k).
    destruct (V2.attemptLoop n fuel attempts (attempt + 1) (Some e)) as [r tr].
    simpl in *. destruct Hin as [[= ->]|[H|H]]; [congruence|discriminate|].
    destruct IH; [lia|assumption..|]. auto.
Qed.

(** A further attempt is made only after a failed attempt and a backoff
    sleep that was not cut short. *)
Lemma attemptLoop_only_after_failure (fuel : nat) :
  forall (attempt : Z) (lastErr : option error) (k : Z),
    In (V2.Request (k + 1)) (snd (V2.attemptLoop n fuel attempts attempt lastErr)) ->
    attempt <= k ->
    failed (V2.client_Do n k) = true /\ V2.waitForRetry n k = true.
Proof.
  induction fuel as [|fuel IH]; intros attempt lastErr k; simpl; [tauto|].
  destruct (Z.leb_spec attempt attempts) as [Hle|Hgt]; simpl; [|tauto].
  destruct (V2.newRequest_ok n attempt); simpl; [|tauto].
  pose proof (attempt_error_failed attempt (V2.client_Do n attempt)) as Hf.
  destruct (match V2.client_Do n attempt with
            | V2.DoErr msg => Some (ErrWrap "fetch" (ErrNew msg))
            | V2.DoResp code decodes => V2.onResponse attempts attempt code decodes
            end) as [e|].
  2:{ intros [[= E]|[]] Hk. lia. }
  destruct (Z.eqb_spec attempt attempts) as [Heq|Hneq].
  { intros [[= E]|[]] Hk. lia. }
  destruct (V2.waitForRetry n attempt) eqn:Hw; simpl.
  2:{ intros [[= E]|[H|[]]] Hk; [lia|discriminate]. }
  specialize (IH (attempt + 1) (Some e) k).
  pose proof (attemptLoop_trace fuel (attempt + 1) (Some e)) as Ht.
  destruct (V2.attemptLoop n fuel attempts (attempt + 1) (Some e)) as [r tr].
  simpl in *. intros [[= E]|[H|H]] Hk; [lia|discriminate|].
  destruct (Z.eq_dec k attempt) as [->|Hne].
  - split; [|assumption]. apply Hf. congruence.
  - apply IH; [assumption|lia].
Qed.

(** More fuel than attempts changes nothing: the loop ends by itself. *)
Lemma attemptLoop_fuel (fuel : nat) :
  forall (attempt : Z) (lastErr : option error) (extra : nat),
    attempts - attempt + 1 <= Z.of_nat fuel ->
    V2.attemptLoop n (fuel + extra) attempts attempt lastErr =
    V2.attemptLoop n fuel attempts attempt lastErr.
Proof.
  induction fuel as [|fuel IH]; intros attempt lastErr extra Hfuel.
  - destruct extra as [|extra]; [reflexivity|]. simpl.
    destruct (Z.leb_spec attempt attempts) as [Hle|Hgt]; [lia|reflexivity].
  - simpl.
    destruct (Z.leb_spec attempt attempts) as [Hle|Hgt]; simpl; [|reflexivity].
    destruct (V2.newRequest_ok n attempt); simpl; [|reflexivity].
    destruct (match V2.client_Do n attempt with
              | V2.DoErr msg => Some (ErrWrap "fetch" (ErrNew msg))
              | V2.DoResp code decodes => V2.onResponse attempts attempt code decodes
              end) as [e|]; [|reflexivity].
    destruct (Z.eqb_spec attempt attempts) as [Heq|Hneq]; [reflexivity|].
    destruct (V2.waitForRetry n attempt); simpl; [|reflexivity].
    rewrite IH by lia. reflexivity.
Qed.

End Fetch.

(** The backoff never exceeds its ceiling, and for the first 35 attempts it
    is the doubled initial backoff under that ceiling. *)
Lemma backoffFor_capped (attempt : Z) : V2.backoffFor attempt <= V2.retryBackoffMax.
Proof.
  unfold V2.backoffFor. cbv zeta.
  destruct (Z.gtb_spec
    (V2.wrap64 (V2.retryBackoffInitial * V2.wrap64 (Z.shiftl 1 (attempt - 1))))
    V2.retryBackoffMax); lia.
Qed.

Lemma wrap64_small (x : Z) : - 2 ^ 63 <= x < 2 ^ 63 -> V2.wrap64 x = x.
Proof.
  intros H. unfold V2.wrap64. rewrite Z.mod_small; lia.
Qed.

Lemma backoffFor_exponential (attempt : Z) :
  1 <= attempt <= 35 ->
  V2.backoffFor attempt =
  Z.min (V2.retryBackoffInitial * 2 ^ (attempt - 1)) V2.retryBackoffMax.
Proof.
  intros H. unfold V2.backoffFor. cbv zeta.
  rewrite Z.shiftl_1_l.
  assert (Hp : 1 <= 2 ^ (attempt - 1) <= 2 ^ 34).
  { split.
    - apply (Z.pow_le_mono_r 2 0 (attempt - 1)); lia.
    - apply Z.pow_le_mono_r; lia. }
  change (2 ^ 34) with 17179869184 in Hp.
  unfold V2.retryBackoffInitial, V2.retryBackoffMax, time.Millisecond, time.Second.
  rewrite (wrap64_small (2 ^ (attempt - 1))) by (change (2 ^ 63) with 9223372036854775808; lia).
  rewrite wrap64_small by (change (2 ^ 63) with 9223372036854775808; lia).
  destruct (Z.gtb_spec (300 * 1000000 * 2 ^ (attempt - 1)) (2 * 1000000000)); lia.
Qed.

(** From attempt 36 on the product wraps around in 64 bits: the backoff is
    negative and the timer fires at once. *)
Example backoffFor_wraps : V2.backoffFor 36 = -8138822563309551616.
Proof. reflexivity. Qed.

Lemma fetchJSON_unfold (n : V2.net) (retries : Z) :
  V2.fetchJSON n retries =
  V2.attemptLoop n (Z.to_nat (Z.max 1 retries)) (Z.max 1 retries) 1 None.
Proof.
  unfold V2.fetchJSON. cbv zeta.
  destruct (Z.ltb_spec retries 1).
  - now rewrite Z.max_l by lia.
  - now rewrite Z.max_r by lia.
Qed.

(** The status of a response other than 200 is tested by
    [shouldRetryStatus], but both outcomes of the test leave the function
    literal with the same [lastErr]: a 404 is followed by a backoff and a
    second attempt like a 503. *)
Lemma onResponse_ignores_status (attempts attempt code : Z) (decodes : bool) :
  code <> V2.StatusOK ->
  V2.onResponse attempts attempt code decodes =
  Some (ErrNew "github status: unexpected status").
Proof.
  intros H. unfold V2.onResponse.
  destruct (Z.eqb_spec code V2.StatusOK); [congruence|]. simpl.
  now destruct (negb (V2.shouldRetryStatus code) || (attempt =? attempts)).
Qed.

Lemma fetchJSON_retries_404 :
  V2.shouldRetryStatus 404 = false /\
  V2.fetchJSON Fx.net_404 2 =
  (None, [V2.Request 1; V2.Sleep 1 300000000; V2.Request 2]).
Proof. split; reflexivity. Qed.

(** C7, counterexample: the first answer is 200 with a body that does not
    decode; after the backoff a second attempt is made, a retry after
    neither a connection failure nor a 5xx or 429 status.  And with a retry
    count of 0 one attempt is made. *)
Lemma fetchJSON_retries_decode_failure :
  V2.client_Do Fx.net_bad_body 1 = V2.DoResp 200 false /\
  V2.fetchJSON Fx.net_bad_body 2 =
  (None, [V2.Request 1; V2.Sleep 1 300000000; V2.Request 2]) /\
  requests (snd (V2.fetchJSON Fx.net_503 0)) = 1%nat.
Proof. split_and!; reflexivity. Qed.

(** C7, amended: the bounded-retry fetch makes at most max(1, retries)
    attempts.  A further attempt is made only after a failed attempt
    followed by a backoff sleep that the context did not cut short; the
    sleep after attempt k lasts at most 2 s, and for k up to 35 it is
    min(300 ms * 2^(k-1), 2 s).  After a connection failure, a 5xx or 429
    status, or a 200 response whose body does not decode, when attempts
    remain and the sleep is not cut short, the next attempt is made.  The
    loop ends by itself: more fuel than attempts gives the same run. *)
Theorem fetchJSON_bounded_retry (n : V2.net) (retries : Z) :
  let attempts := Z.max 1 retries in
  let trace := snd (V2.fetchJSON n retries) in
  (requests trace <= Z.to_nat attempts)%nat /\
  (forall k, In (V2.Request k) trace -> 1 <= k <= attempts) /\
  (forall k b, In (V2.Sleep k b) trace ->
     1 <= k < attempts /\ b = V2.backoffFor k /\ b <= V2.retryBackoffMax /\
     (k <= 35 -> b = Z.min (V2.retryBackoffInitial * 2 ^ (k - 1)) V2.retryBackoffMax)) /\
  (forall k, In (V2.Request (k + 1)) trace -> 1 <= k ->
     failed (V2.client_Do n k) = true /\ V2.waitForRetry n k = true) /\
  (forall k, In (V2.Request k) trace -> k < attempts ->
     retryable (V2.client_Do n k) = true ->
     V2.waitForRetry n k = true ->
     V2.newRequest_ok n (k + 1) = true ->
     In (V2.Sleep k (V2.backoffFor k)) trace /\ In (V2.Request (k + 1)) trace) /\
  (forall extra : nat,
     V2.attemptLoop n (Z.to_nat attempts + extra) attempts 1 None =
     V2.fetchJSON n retries).
Proof.
  intros attempts trace. subst trace. rewrite fetchJSON_unfold. fold attempts.
  destruct (attemptLoop_trace n attempts (Z.to_nat attempts) 1 None) as (H1 & H2 & H3).
  split_and!; [| | | | |intros extra; apply attemptLoop_fuel; unfold attempts; lia].
  - exact H1.
  - exact H2.
  - intros k b H. destruct (H3 k b H) as [Hk ->].
    split_and!; [lia | lia | reflexivity | apply backoffFor_capped |].
    intros Hle. apply backoffFor_exponential. lia.
  - intros k H Hk. eapply attemptLoop_only_after_failure; eassumption.
  - intros k H Hk Hr Hw Hn.
    apply attemptLoop_retry; try assumption; [|now apply retryable_failed].
    unfold attempts. lia.
Qed.

(** C7, witness: three attempts against a server that answers 503. *)
Lemma fetchJSON_bounded_retry_witness :
  (requests (snd (V2.fetchJSON Fx.net_503 3)) <= 3)%nat /\
  V2.fetchJSON Fx.net_503 3 =
  (Some (ErrNew "github status: unexpected status"),
   [V2.Request 1; V2.Sleep 1 300000000; V2.Request 2;
    V2.Sleep 2 600000000; V2.Request 3]).
Proof.
  split; [|reflexivity].
  exact (proj1 (fetchJSON_bounded_retry Fx.net_503 3)).
Defined.

(* ================================================================== *)
(** * Further properties of the report builder                         *)
(* ================================================================== *)

Section ResolvedOrder.
Context (L : golib).

Lemma resolvedLoop_sublist (cutoff : Time) (incidents : list incident) :
  forall seen : gset string,
    sublist (resolvedLoop L cutoff seen incidents) incidents.
Proof.
  induction incidents as [|x rest IH]; intros seen; simpl; [constructor|].
  destruct (negb (strings_EqualFold L (inc_Status x) "resolved"));
    [apply sublist_cons, IH|].
  destruct (negb (String.eqb (inc_ID x) "") && bool_decide (inc_ID x ∈ seen));
    [apply sublist_cons, IH|].
  destruct (negb (time.IsZero (V3.incidentTime L x)) &&
            time.Before (V3.incidentTime L x) cutoff);
    [apply sublist_cons, IH | apply sublist_skip, IH].
Qed.

(** When the first resolved incident of the feed with a non-empty id is
    older than the cutoff, its id is marked as seen all the same, and no
    incident with that id is kept. *)
Lemma resolvedLoop_blocked (cutoff : Time) (inc : incident) (post : list incident) :
  strings_EqualFold L (inc_Status inc) "resolved" = true ->
  inc_ID inc <> "" ->
  V3.incidentTime L inc <> time.zero ->
  V3.incidentTime L inc < cutoff ->
  forall (pre : list incident) (seen : gset string),
    id_unused L inc pre ->
    count_id (inc_ID inc) (resolvedLoop L cutoff seen (pre ++ inc :: post)) = 0%nat.
Proof.
  intros Hres Hid Hnz Hold.
  assert (Hdrop : negb (time.IsZero (V3.incidentTime L inc)) &&
                  time.Before (V3.incidentTime L inc) cutoff = true).
  { unfold time.IsZero, time.Before, time.zero in *. zcases. }
  induction pre as [|x pre IH]; intros seen Hu; simpl.
  - rewrite Hres. simpl.
    destruct (String.eqb_spec (inc_ID inc) ""); [congruence|]. simpl.
    case_bool_decide as Hs.
    + now apply resolvedLoop_seen.
    + rewrite Hdrop. apply resolvedLoop_seen; [assumption|].
      apply elem_of_union. left. now apply elem_of_singleton.
  - apply Forall_cons_iff in Hu as [Hx Hu].
    destruct (strings_EqualFold L (inc_Status x) "resolved"); simpl; [|now apply IH].
    destruct (negb (String.eqb (inc_ID x) "") && bool_decide (inc_ID x ∈ seen));
      [now apply IH|].
    destruct (negb (time.IsZero (V3.incidentTime L x)) &&
              time.Before (V3.incidentTime L x) cutoff); [now apply IH|].
    unfold count_id. simpl.
    destruct (String.eqb_spec (inc_ID x) (inc_ID inc)) as [E|E];
      [now specialize (Hx eq_refl)|].
    now apply IH.
Qed.

(** When the first resolved incident of the feed with a non-empty id is
    kept, the incidents after it with that id are not: it is the only one
    of the list with its id. *)
Lemma resolvedLoop_first_kept (cutoff : Time) (inc : incident) (post : list incident) :
  strings_EqualFold L (inc_Status inc) "resolved" = true ->
  inc_ID inc <> "" ->
  V3.incidentTime L inc = time.zero \/ within cutoff (V3.incidentTime L inc) ->
  forall (pre : list incident) (seen : gset string),
    inc_ID inc ∉ seen ->
    id_unused L inc pre ->
    count_id (inc_ID inc) (resolvedLoop L cutoff seen (pre ++ inc :: post)) = 1%nat.
Proof.
  intros Hres Hid Ht.
  assert (Hok : negb (time.IsZero (V3.incidentTime L inc)) &&
                time.Before (V3.incidentTime L inc) cutoff = false).
  { unfold time.IsZero, time.Before, within, time.zero in *. destruct Ht; zcases. }
  induction pre as [|x pre IH]; intros seen Hs Hu; simpl.
  - rewrite Hres. simpl.
    destruct (String.eqb_spec (inc_ID inc) ""); [congruence|]. simpl.
    rewrite bool_decide_eq_false_2 by assumption. rewrite Hok.
    unfold count_id. simpl. rewrite String.eqb_refl. simpl. f_equal.
    apply resolvedLoop_seen; [assumption|].
    apply elem_of_union. left. now apply elem_of_singleton.
  - apply Forall_cons_iff in Hu as [Hx Hu].
    destruct (strings_EqualFold L (inc_Status x) "resolved"); simpl; [|now apply IH].
    specialize (Hx eq_refl).
    destruct (negb (String.eqb (inc_ID x) "") && bool_decide (inc_ID x ∈ seen));
      [now apply IH|].
    assert (Hs' : inc_ID inc ∉
              (if negb (String.eqb (inc_ID x) "") then {[inc_ID x]} ∪ seen else seen)).
    { destruct (negb (String.eqb (inc_ID x) "")); [|assumption].
      intros Hin. apply elem_of_union in Hin as [Hin|Hin]; [|contradiction].
      apply elem_of_singleton in Hin. congruence. }
    destruct (negb (time.IsZero (V3.incidentTime L x)) &&
              time.Before (V3.incidentTime L x) cutoff); [now apply IH|].
    unfold count_id. simpl.
    destruct (String.eqb_spec (inc_ID x) (inc_ID inc)) as [E|E]; [contradiction|].
    now apply IH.
Qed.

End ResolvedOrder.

(** X1: the filter of the resolved incidents keeps the order of the feed:
    its result is a subsequence of the incident list it is given. *)
Theorem recentResolved_feed_order (L : golib) (now : Time) (lookback : Z)
    (incidents : list incident) :
  sublist (V3.recentResolved L now lookback incidents) incidents.
Proof. rewrite recentResolved_loop. apply resolvedLoop_sublist. Qed.

(** X2: a resolved incident that is the first resolved one of the feed with
    its id (or has no id), and whose known timestamp is zero or not before
    the cutoff, is in the filtered list. *)
Theorem recentResolved_complete (L : golib) (now : Time) (lookback : Z)
    (pre post : list incident) (inc : incident) :
  strings_EqualFold L (inc_Status inc) "resolved" = true ->
  (inc_ID inc <> "" -> id_unused L inc pre) ->
  V3.incidentTime L inc = time.zero \/
    within (time.Add now (- lookback)) (V3.incidentTime L inc) ->
  In inc (V3.recentResolved L now lookback (pre ++ inc :: post)).
Proof.
  intros Hres Hid Ht. rewrite recentResolved_loop.
  apply resolvedLoop_keeps_first; try assumption.
  intros E. split; [apply not_elem_of_empty | now apply Hid].
Qed.

Lemma recentResolved_complete_witness :
  In Fx.recent
    (V3.recentResolved stdgo Fx.now V3.resolvedLookback
       ([Fx.undated] ++ (Fx.recent :: [Fx.recent; Fx.old]))).
Proof.
  apply (recentResolved_complete stdgo Fx.now V3.resolvedLookback
           [Fx.undated] [Fx.recent; Fx.old] Fx.recent).
  - reflexivity.
  - intros _. constructor; [|constructor]. intros _. discriminate.
  - right. unfold within. vm_compute. discriminate.
Defined.

(** X3: the first resolved incident of the feed with a given non-empty id
    decides for that id.  When its known timestamp is not zero and is older
    than the cutoff, no incident with that id is in the filtered list, not
    even a later one that is recent: the id is recorded as seen before the
    age test.  When its known timestamp is zero (nothing parsed) or within
    the window, it is kept, and it is the only incident of the list with
    that id. *)
Theorem recentResolved_old_first_blocks (L : golib) (now : Time) (lookback : Z)
    (pre post : list incident) (inc : incident) :
  strings_EqualFold L (inc_Status inc) "resolved" = true ->
  inc_ID inc <> "" ->
  id_unused L inc pre ->
  let cutoff := time.Add now (- lookback) in
  let kept := V3.recentResolved L now lookback (pre ++ inc :: post) in
  (V3.incidentTime L inc <> time.zero ->
   V3.incidentTime L inc < cutoff ->
   count_id (inc_ID inc) kept = 0%nat) /\
  (V3.incidentTime L inc = time.zero \/ within cutoff (V3.incidentTime L inc) ->
   In inc kept /\ count_id (inc_ID inc) kept = 1%nat).
Proof.
  intros Hres Hid Hu cutoff kept. subst kept cutoff.
  rewrite recentResolved_loop. split.
  - intros Hnz Hold. now apply resolvedLoop_blocked.
  - intros Ht. split.
    + apply resolvedLoop_keeps_first; try assumption.
      intros _. split; [apply not_elem_of_empty | assumption].
    + apply resolvedLoop_first_kept; try assumption.
      apply not_elem_of_empty.
Qed.

Lemma recentResolved_old_first_blocks_witness :
  count_id "r1"
    (V3.recentResolved stdgo Fx.now V3.resolvedLookback
       ([] ++ (Fx.recent_stale_copy :: [Fx.recent]))) = 0%nat /\
  count_id "r1"
    (V3.recentResolved stdgo Fx.now V3.resolvedLookback
       ([] ++ (Fx.recent_undated_copy :: [Fx.recent]))) = 1%nat.
Proof.
  split.
  - apply (recentResolved_old_first_blocks stdgo Fx.now V3.resolvedLookback
             [] [Fx.recent] Fx.recent_stale_copy).
    + reflexivity.
    + discriminate.
    + constructor.
    + vm_compute. discriminate.
    + vm_compute. reflexivity.
  - apply (recentResolved_old_first_blocks stdgo Fx.now V3.resolvedLookback
             [] [Fx.recent] Fx.recent_undated_copy).
    + reflexivity.
    + discriminate.
    + constructor.
    + left. reflexivity.
Defined.

(** X4: [buildReport] returns a report exactly when the components are
    fetched, some remain after filtering, and every fetch the configuration
    asks for succeeds; there is no partial report. *)
Theorem buildReport_all_or_nothing (L : golib) (w : world) (cfg : V3.config) :
  let includeActive := V3.showDetails cfg || String.eqb (V3.output cfg) V3.outputJSON in
  let includeResolved := V3.showResolved cfg || String.eqb (V3.output cfg) V3.outputJSON in
  (exists r, fst (run_io (V3.buildReport L w cfg)) = Ok r) <->
  (exists comps, get_components w = Ok comps /\ V3.filterComponents L comps <> []) /\
  (includeActive = true -> exists active, get_unresolved w = Ok active) /\
  (includeResolved = true -> exists incs, get_incidents w = Ok incs).
Proof.
  intros includeActive includeResolved. subst includeActive includeResolved.
  split.
  - intros [r Hr].
    destruct (buildReport_components L w cfg r Hr) as (comps & Hc & _ & Hne).
    split_and!; [eauto | |].
    + intros Ha.
      destruct (buildReport_active L w cfg r Hr) as [[Hoff _]|(_ & a & Hu & _)];
        [congruence|eauto].
    + intros Hi.
      destruct (buildReport_resolved L w cfg r Hr) as [[Hoff _]|(_ & i & Hu & _)];
        [congruence|eauto].
  - intros ((comps & Hc & Hne) & Ha & Hi).
    run_buildReport. rewrite Hc. simpl.
    destruct (V3.filterComponents L comps) as [|c cs]; [congruence|]. simpl.
    destruct (V3.showDetails cfg || String.eqb (V3.output cfg) V3.outputJSON);
      [destruct (Ha eq_refl) as [a ->]|];
      (destruct (V3.showResolved cfg || String.eqb (V3.output cfg) V3.outputJSON);
       [destruct (Hi eq_refl) as [i ->]|]); simpl; eauto.
Qed.

(** X5: the order and the wrapping of failures.  The fetches are issued in
    the order components, unresolved incidents, all incidents; a failed
    fetch ends the build with its error wrapped in the name of the step, and
    nothing is fetched after it. *)
Theorem buildReport_stops_at_failure (L : golib) (w : world) (cfg : V3.config)
    (comps : list component) (e : error) :
  get_components w = Ok comps ->
  V3.filterComponents L comps <> [] ->
  V3.showDetails cfg || String.eqb (V3.output cfg) V3.outputJSON = true ->
  get_unresolved w = Err e ->
  run_io (V3.buildReport L w cfg) =
  (Err (ErrWrap "fetch active incidents" e), [componentsURL; unresolvedURL]).
Proof.
  intros Hc Hne Ha He. run_buildReport. rewrite Hc. simpl.
  destruct (V3.filterComponents L comps) as [|c cs]; [congruence|]. simpl.
  rewrite Ha, He. reflexivity.
Qed.

Lemma buildReport_stops_at_failure_witness :
  run_io (V3.buildReport stdgo Fx.world_down Fx.cfg_details) =
  (Err (ErrWrap "fetch active incidents" (ErrNew "connection refused")),
   [componentsURL; unresolvedURL]).
Proof.
  apply (buildReport_stops_at_failure stdgo Fx.world_down Fx.cfg_details
           Fx.feed_components).
  - reflexivity.
  - vm_compute. discriminate.
  - reflexivity.
  - reflexivity.
Defined.

(** X6: in every report that is built, the Active list and the Resolved
    list are ranked by the chain timestamp descending, impact rank
    ascending, lower-cased name ascending, and the components are in
    ascending order of their lower-cased names. *)
Theorem buildReport_lists_ranked (L : golib) (HL : sort_contract L) (w : world)
    (cfg : V3.config) (r : V3.report) :
  fst (run_io (V3.buildReport L w cfg)) = Ok r ->
  StronglySorted (time_rank_name (V3.incidentTime L) (rank3 L) (lowerName L))
    (V3.rep_Active r) /\
  StronglySorted (time_rank_name (V3.incidentTime L) (rank3 L) (lowerName L))
    (V3.rep_Resolved r) /\
  StronglySorted
    (fun a b => String.leb (strings_ToLower L (comp_Name a))
                           (strings_ToLower L (comp_Name b)) = true)
    (V3.rep_Components r).
Proof.
  intros Hr.
  assert (Hsorted : forall l,
    StronglySorted (time_rank_name (V3.incidentTime L) (rank3 L) (lowerName L))
      (V3.sortIncidents L l)).
  { intros l. eapply StronglySorted_iff; [apply V3_not_less_chain|].
    apply (sort_sorted L HL), strict_weak_V3_incident_less. }
  split_and!.
  - destruct (buildReport_active L w cfg r Hr) as [[_ ->]|(_ & a & _ & ->)];
      [constructor|apply Hsorted].
  - destruct (buildReport_resolved L w cfg r Hr) as [[_ ->]|(_ & i & _ & ->)];
      [constructor|apply Hsorted].
  - destruct (buildReport_components L w cfg r Hr) as (comps & _ & -> & _).
    unfold V3.filterComponents.
    eapply StronglySorted_iff;
      [|apply (sort_sorted L HL), strict_weak_component_less].
    intros a b. unfold V3.component_less. rewrite string_leb_ltb.
    now rewrite negb_true_iff.
Qed.

Lemma buildReport_lists_ranked_witness :
  sort_contract stdgo /\
  exists r : V3.report,
    fst (run_io (V3.buildReport stdgo Fx.test_world Fx.test_cfg)) = Ok r /\
    StronglySorted
      (time_rank_name (V3.incidentTime stdgo) (rank3 stdgo) (lowerName stdgo))
      (V3.rep_Resolved r).
Proof.
  split; [exact stdgo_contract|]. eexists. split; [reflexivity|].
  exact (proj1 (proj2 (buildReport_lists_ranked stdgo stdgo_contract
                         Fx.test_world Fx.test_cfg _ eq_refl))).
Defined.

(** ** Where the known timestamp comes from *)

Lemma firstParsed_from_updates (L : golib) (updates : list incidentUpdate) (t : Time) :
  V3.firstParsed L updates = Some t ->
  exists u, In u updates /\ V3.parseTime L (upd_CreatedAt u) = Some t.
Proof.
  induction updates as [|u rest IH]; simpl; [discriminate|].
  destruct (V3.parseTime L (upd_CreatedAt u)) as [tu|] eqn:E.
  - intros [= <-]. eauto.
  - intros H. destruct (IH H) as (x & Hx & Hp). eauto.
Qed.

(** X7: the known timestamp of an incident is never invented: in both
    programs it is the zero Time or the parsed value of one of the
    incident's own timestamp texts ([updatedAt], [createdAt], or the
    timestamp of one of its updates). *)
Theorem incidentTime_from_fields (L : golib) (HL : sort_contract L) (inc : incident) :
  (V3.incidentTime L inc = time.zero \/
   exists raw, In raw (timestamps inc) /\
               V3.parseTime L raw = Some (V3.incidentTime L inc)) /\
  (V2.incidentTime L inc = time.zero \/
   exists raw, In raw (timestamps inc) /\
               V2.parseTime L raw = Some (V2.incidentTime L inc)).
Proof.
  unfold timestamps. split.
  - unfold V3.incidentTime.
    destruct (V3.parseTime L (inc_UpdatedAt inc)) as [t|] eqn:Eu.
    { right. exists (inc_UpdatedAt inc). split; [now left|assumption]. }
    destruct (length (inc_IncidentUpdates inc) =? 0)%nat.
    + destruct (V3.parseTime L (inc_CreatedAt inc)) as [t|] eqn:Ec; [|now left].
      right. exists (inc_CreatedAt inc). split; [right; now left|assumption].
    + destruct (V3.firstParsed L (inc_IncidentUpdates inc)) as [t|] eqn:Ef; [|now left].
      destruct (firstParsed_from_updates L _ _ Ef) as (u & Hu & Hp).
      right. exists (upd_CreatedAt u). split; [|assumption].
      right. right. now apply in_map.
  - unfold V2.incidentTime.
    destruct (V2.parseTime L (inc_UpdatedAt inc)) as [t|] eqn:Eu.
    { right. exists (inc_UpdatedAt inc). split; [now left|assumption]. }
    destruct (length (inc_IncidentUpdates inc) =? 0)%nat.
    + destruct (V2.parseTime L (inc_CreatedAt inc)) as [t|] eqn:Ec; [|now left].
      right. exists (inc_CreatedAt inc). split; [right; now left|assumption].
    + destruct (V2.firstParsed L (V2.sortIncidentUpdates L (inc_IncidentUpdates inc)))
        as [t|] eqn:Ef; [|now left].
      destruct (firstParsed_from_updates L _ _ Ef) as (u & Hu & Hp).
      right. exists (upd_CreatedAt u). split; [|assumption].
      right. right. apply in_map.
      apply (Permutation_in _ (Permutation_sym
               (sort_perm L HL _ (V2.update_less L) (inc_IncidentUpdates inc)))).
      exact Hu.
Qed.

Lemma incidentTime_from_fields_witness :
  sort_contract stdgo /\
  (V2.incidentTime stdgo Fx.oldest_first = time.zero \/
   exists raw, In raw (timestamps Fx.oldest_first) /\
               V2.parseTime stdgo raw = Some (V2.incidentTime stdgo Fx.oldest_first)).
Proof.
  split; [exact stdgo_contract|].
  exact (proj2 (incidentTime_from_fields stdgo stdgo_contract Fx.oldest_first)).
Defined.

(** ** The ranking does not depend on the order of the feed *)

Lemma sorted_perm_unique {K : Type} (R : K -> K -> Prop)
    (Hanti : forall a b, R a b -> R b a -> a = b) :
  forall l1 l2 : list K,
    StronglySorted R l1 -> StronglySorted R l2 -> Permutation l1 l2 -> l1 = l2.
Proof.
  induction l1 as [|x xs IH]; intros l2 H1 H2 Hp.
  - apply Permutation_nil in Hp. now subst.
  - destruct l2 as [|y ys].
    { symmetry in Hp. now apply Permutation_nil in Hp. }
    apply StronglySorted_inv in H1 as [H1 Hx].
    apply StronglySorted_inv in H2 as [H2 Hy].
    rewrite List.Forall_forall in Hx, Hy.
    assert (Exy : x = y).
    { assert (Hyin : In y (x :: xs)).
      { apply (Permutation_in _ (Permutation_sym Hp)). now left. }
      assert (Hxin : In x (y :: ys)).
      { apply (Permutation_in _ Hp). now left. }
      destruct Hyin as [E|Hyin]; [assumption|].
      destruct Hxin as [E|Hxin]; [now symmetry|].
      apply Hanti; [now apply Hx | now apply Hy]. }
    subst y. f_equal. apply IH; try assumption.
    now apply Permutation_cons_inv in Hp.
Qed.

Lemma keys_le_antisym (a b : Z * Z * string) : keys_le a b -> keys_le b a -> a = b.
Proof.
  destruct a as [[t1 r1] n1], b as [[t2 r2] n2]. simpl.
  intros H1 H2.
  assert (Hn := String.leb_antisym n1 n2).
  assert (t1 = t2 /\ r1 = r2 /\ n1 = n2) as (-> & -> & ->); [|reflexivity].
  intuition lia.
Qed.

Lemma sorted_rank_keys (L : golib) (l : list incident) :
  StronglySorted (time_rank_name (V3.incidentTime L) (rank3 L) (lowerName L)) l ->
  StronglySorted keys_le (List.map (rank_keys L) l).
Proof.
  induction 1 as [|x l Hl IH Hx]; simpl; constructor; [assumption|].
  rewrite List.Forall_forall in *. intros k Hk.
  apply in_map_iff in Hk as (y & <- & Hy). exact (Hx y Hy).
Qed.

(** X8: the ranking does not depend on the order of the feed, nor on how
    [sort.Slice] treats ties: for two incident lists that are permutations
    of each other, the sorted lists show the same sequence of key triples
    (timestamp, impact rank, lower-cased name); sorting a sorted list leaves
    that sequence as it is. *)
Theorem sortIncidents_keys_determined (L : golib) (HL : sort_contract L)
    (l l' : list incident) :
  Permutation l l' ->
  List.map (rank_keys L) (V3.sortIncidents L l) =
  List.map (rank_keys L) (V3.sortIncidents L l') /\
  List.map (rank_keys L) (V3.sortIncidents L (V3.sortIncidents L l)) =
  List.map (rank_keys L) (V3.sortIncidents L l).
Proof.
  intros Hp.
  assert (Hsorted : forall m,
    StronglySorted keys_le (List.map (rank_keys L) (V3.sortIncidents L m))).
  { intros m. apply sorted_rank_keys.
    eapply StronglySorted_iff; [apply V3_not_less_chain|].
    apply (sort_sorted L HL), strict_weak_V3_incident_less. }
  assert (Hperm : forall m, Permutation m (V3.sortIncidents L m))
    by (intros m; apply (sort_perm L HL)).
  split; apply (sorted_perm_unique keys_le keys_le_antisym);
    try apply Hsorted; apply Permutation_map.
  - rewrite <- (Hperm l), <- (Hperm l'). exact Hp.
  - symmetry. apply Hperm.
Qed.

Lemma sortIncidents_keys_determined_witness :
  sort_contract stdgo /\
  List.map (rank_keys stdgo) (V3.sortIncidents stdgo [Fx.outage; Fx.delay]) =
  List.map (rank_keys stdgo) (V3.sortIncidents stdgo [Fx.delay; Fx.outage]).
Proof.
  split; [exact stdgo_contract|].
  exact (proj1 (sortIncidents_keys_determined stdgo stdgo_contract
                  [Fx.outage; Fx.delay] [Fx.delay; Fx.outage] (perm_swap _ _ _))).
Defined.

(* ================================================================== *)
(** * The 0.2.0 program: [filterResolved]                              *)
(* ================================================================== *)

Lemma In_sublist {A : Type} (x : A) (l1 l2 : list A) :
  sublist l1 l2 -> In x l1 -> In x l2.
Proof.
  intros Hs Hin. apply list_elem_of_In.
  eapply elem_of_sublist; [|exact Hs]. now apply list_elem_of_In.
Qed.

Lemma StronglySorted_sublist {A : Type} (R : A -> A -> Prop) (l1 l2 : list A) :
  sublist l1 l2 -> StronglySorted R l2 -> StronglySorted R l1.
Proof.
  induction 1 as [|x l1 l2 Hs IH|x l1 l2 Hs IH]; intros H2.
  - constructor.
  - apply StronglySorted_inv in H2 as [H2 Hx]. constructor; [now apply IH|].
    rewrite List.Forall_forall in *. intros y Hy. apply Hx.
    now apply (In_sublist y l1 l2).
  - apply StronglySorted_inv in H2 as [H2 _]. now apply IH.
Qed.

Section FilterResolved.
Context (L : golib).

(** The loop returns what it has, then the deduplicated rest up to the
    cap. *)
Lemma filterResolvedLoop_take (incidents : list incident) :
  forall (resolved : list incident) (seen : gset string),
    (length resolved < V2.maxResolvedIncidents)%nat ->
    V2.filterResolvedLoop L resolved seen incidents =
    resolved ++ take (V2.maxResolvedIncidents - length resolved)
                     (dedupResolved L seen incidents).
Proof.
  unfold V2.maxResolvedIncidents.
  induction incidents as [|x rest IH]; intros resolved seen Hlen; simpl.
  - now rewrite take_nil, app_nil_r.
  - destruct (negb (strings_EqualFold L (inc_Status x) "resolved")); [now apply IH|].
    assert (Hstep : forall seen',
      (if (5 <=? length (resolved ++ [x]))%nat then resolved ++ [x]
       else V2.filterResolvedLoop L (resolved ++ [x]) seen' rest) =
      resolved ++ take (5 - length resolved) (x :: dedupResolved L seen' rest)).
    { intros seen'. rewrite length_app. cbn [length].
      destruct (Nat.leb_spec 5 (length resolved + 1)) as [Hle|Hgt].
      - replace (5 - length resolved)%nat with 1%nat by lia. reflexivity.
      - rewrite IH by (rewrite length_app; cbn [length]; lia).
        rewrite length_app. cbn [length].
        replace (5 - length resolved)%nat
          with (S (5 - (length resolved + 1)))%nat by lia.
        rewrite <- app_assoc. reflexivity. }
    destruct (String.eqb (inc_ID x) ""); simpl; [apply Hstep|].
    case_bool_decide; [now apply IH|apply Hstep].
Qed.

Lemma filterResolved_take (incidents : list incident) :
  V2.filterResolved L incidents =
  take V2.maxResolvedIncidents (dedupResolved L ∅ incidents).
Proof.
  unfold V2.filterResolved. rewrite filterResolvedLoop_take.
  - reflexivity.
  - unfold V2.maxResolvedIncidents. simpl. lia.
Qed.

Lemma dedupResolved_sublist (incidents : list incident) :
  forall seen, sublist (dedupResolved L seen incidents) incidents.
Proof.
  induction incidents as [|x rest IH]; intros seen; simpl; [constructor|].
  destruct (negb (strings_EqualFold L (inc_Status x) "resolved"));
    [apply sublist_cons, IH|].
  destruct (String.eqb (inc_ID x) ""); [apply sublist_skip, IH|].
  case_bool_decide; [apply sublist_cons, IH | apply sublist_skip, IH].
Qed.

Lemma dedupResolved_in (incidents : list incident) :
  forall (seen : gset string) (inc : incident),
    In inc (dedupResolved L seen incidents) ->
    strings_EqualFold L (inc_Status inc) "resolved" = true /\
    (inc_ID inc <> "" -> inc_ID inc ∉ seen).
Proof.
  induction incidents as [|x rest IH]; intros seen inc; simpl; [tauto|].
  destruct (strings_EqualFold L (inc_Status x) "resolved") eqn:Hres; simpl;
    [|apply IH].
  destruct (String.eqb_spec (inc_ID x) "") as [E|E].
  - intros [<-|H]; [split; [assumption|congruence] | now apply IH].
  - case_bool_decide as Hs; [apply IH|].
    intros [<-|H]; [split; [assumption|auto]|].
    destruct (IH _ _ H) as [H1 H2]. split; [assumption|].
    intros Hid Hin. apply (H2 Hid), elem_of_union. now right.
Qed.

Lemma dedupResolved_seen (incidents : list incident) (seen : gset string)
    (id : string) :
  id <> "" -> id ∈ seen -> count_id id (dedupResolved L seen incidents) = 0%nat.
Proof.
  intros Hid Hin. unfold count_id.
  destruct (List.filter (fun i => String.eqb (inc_ID i) id)
              (dedupResolved L seen incidents)) as [|x l] eqn:E; [reflexivity|].
  assert (Hx : In x (x :: l)) by now left.
  rewrite <- E in Hx. apply List.filter_In in Hx as [Hx Hxid].
  apply String.eqb_eq in Hxid. subst id.
  apply dedupResolved_in in Hx as [_ Hn]. now specialize (Hn Hid).
Qed.

Lemma dedupResolved_unique (incidents : list incident) :
  forall (seen : gset string) (id : string),
    id <> "" -> (count_id id (dedupResolved L seen incidents) <= 1)%nat.
Proof.
  induction incidents as [|x rest IH]; intros seen id Hid; simpl.
  - unfold count_id. simpl. lia.
  - destruct (negb (strings_EqualFold L (inc_Status x) "resolved")); [now apply IH|].
    destruct (String.eqb_spec (inc_ID x) "") as [E|E].
    + unfold count_id. simpl.
      destruct (String.eqb_spec (inc_ID x) id); [congruence|]. now apply IH.
    + case_bool_decide; [now apply IH|].
      unfold count_id. simpl.
      destruct (String.eqb_spec (inc_ID x) id) as [E'|E']; [|now apply IH].
      simpl. fold (count_id id (dedupResolved L ({[inc_ID x]} ∪ seen) rest)).
      rewrite dedupResolved_seen; [lia|assumption|].
      apply elem_of_union. left. now apply elem_of_singleton.
Qed.

(** Deduplicating a prefix of a deduplicated list changes nothing. *)
Lemma dedupResolved_fixed (incidents : list incident) :
  forall (seen seen' : gset string) (n : nat),
    seen' ⊆ seen ->
    dedupResolved L seen' (take n (dedupResolved L seen incidents)) =
    take n (dedupResolved L seen incidents).
Proof.
  induction incidents as [|x rest IH]; intros seen seen' n Hsub; simpl.
  - now rewrite take_nil.
  - destruct (strings_EqualFold L (inc_Status x) "resolved") eqn:Hres; simpl;
      [|now apply IH].
    destruct (String.eqb_spec (inc_ID x) "") as [E|E].
    + destruct n as [|n]; simpl; [reflexivity|].
      rewrite Hres. simpl. destruct (String.eqb_spec (inc_ID x) ""); [|congruence].
      f_equal. now apply IH.
    + case_bool_decide as Hs; [now apply IH|].
      destruct n as [|n]; simpl; [reflexivity|].
      rewrite Hres. simpl. destruct (String.eqb_spec (inc_ID x) ""); [congruence|].
      rewrite bool_decide_eq_false_2 by (intros Hin; now apply Hs, Hsub).
      f_equal. apply IH. now apply union_mono_l.
Qed.

End FilterResolved.

Lemma count_id_sublist (id : string) (l1 l2 : list incident) :
  sublist l1 l2 -> (count_id id l1 <= count_id id l2)%nat.
Proof.
  unfold count_id. induction 1 as [|x l1 l2 _ IH|x l1 l2 _ IH]; simpl.
  - lia.
  - destruct (String.eqb (inc_ID x) id); simpl; lia.
  - destruct (String.eqb (inc_ID x) id); simpl; lia.
Qed.

(** X9: [filterResolved] returns at most 5 incidents, in the order of its
    argument; every one of them has a status equal to "resolved" up to
    case, and no non-empty id occurs twice. *)
Theorem filterResolved_capped (L : golib) (incidents : list incident) :
  (length (V2.filterResolved L incidents) <= 5)%nat /\
  sublist (V2.filterResolved L incidents) incidents /\
  (forall inc, In inc (V2.filterResolved L incidents) ->
     strings_EqualFold L (inc_Status inc) "resolved" = true) /\
  (forall id, id <> "" -> (count_id id (V2.filterResolved L incidents) <= 1)%nat).
Proof.
  rewrite filterResolved_take. unfold V2.maxResolvedIncidents.
  assert (Hsub : sublist (take 5 (dedupResolved L ∅ incidents))
                         (dedupResolved L ∅ incidents)) by apply sublist_take.
  split_and!.
  - rewrite length_take. lia.
  - etransitivity; [exact Hsub|]. apply dedupResolved_sublist.
  - intros inc Hin. apply (In_sublist inc _ _ Hsub) in Hin.
    now apply dedupResolved_in in Hin.
  - intros id Hid. etransitivity; [apply count_id_sublist, Hsub|].
    now apply dedupResolved_unique.
Qed.

(** X10: the cap of [filterResolved] comes after the deduplication:
    the result is the first 5 of the resolved incidents without repeated
    ids, so a repeated id does not use up a place. *)
Theorem filterResolved_first_five (L : golib) (incidents : list incident) :
  V2.filterResolved L incidents = take 5 (dedupResolved L ∅ incidents).
Proof. apply filterResolved_take. Qed.

(** X11: [filterResolved] is idempotent. *)
Theorem filterResolved_idempotent (L : golib) (incidents : list incident) :
  V2.filterResolved L (V2.filterResolved L incidents) =
  V2.filterResolved L incidents.
Proof.
  rewrite !filterResolved_take.
  rewrite dedupResolved_fixed by reflexivity.
  apply take_idemp.
Qed.

(** X12: what [run] shows as resolved, [filterResolved (sortIncidents all)],
    is ranked by the chain of the 0.2.0 program (impact rank, then
    timestamp descending, then name), and the resolved incidents left out
    by the cap rank no higher than the ones shown. *)
Theorem filterResolved_top_ranked (L : golib) (HL : sort_contract L)
    (all : list incident) :
  let shown := V2.filterResolved L (V2.sortIncidents L all) in
  let left_out := drop 5 (dedupResolved L ∅ (V2.sortIncidents L all)) in
  StronglySorted (rank_time_name (V2.incidentTime L) (rank2 L) (lowerName L)) shown /\
  (forall x y, In x shown -> In y left_out ->
     rank_time_name (V2.incidentTime L) (rank2 L) (lowerName L) x y) /\
  (forall inc, In inc shown -> In inc all).
Proof.
  intros shown left_out. subst shown left_out.
  rewrite filterResolved_take. unfold V2.maxResolvedIncidents.
  assert (Hs : StronglySorted
                 (rank_time_name (V2.incidentTime L) (rank2 L) (lowerName L))
                 (dedupResolved L ∅ (V2.sortIncidents L all))).
  { eapply StronglySorted_sublist; [apply dedupResolved_sublist|].
    eapply StronglySorted_iff; [apply V2_not_less_chain|].
    apply (sort_sorted L HL), strict_weak_V2_incident_less. }
  rewrite <- (take_drop 5 (dedupResolved L ∅ (V2.sortIncidents L all))) in Hs.
  apply StronglySorted_app_parts in Hs as (H1 & _ & H12).
  split_and!; [exact H1 | exact H12 |].
  intros inc Hin.
  apply (Permutation_in _ (Permutation_sym (sort_perm L HL _ (V2.incident_less L) all))).
  eapply In_sublist; [apply dedupResolved_sublist|].
  eapply In_sublist; [apply sublist_take|]. exact Hin.
Qed.

Lemma filterResolved_top_ranked_witness :
  sort_contract stdgo /\
  StronglySorted
    (rank_time_name (V2.incidentTime stdgo) (rank2 stdgo) (lowerName stdgo))
    (V2.filterResolved stdgo
       (V2.sortIncidents stdgo [Fx.undated; Fx.recent; Fx.recent; Fx.old])).
Proof.
  split; [exact stdgo_contract|].
  exact (proj1 (filterResolved_top_ranked stdgo stdgo_contract
                  [Fx.undated; Fx.recent; Fx.recent; Fx.old])).
Defined.

(* ================================================================== *)
(** * The 0.2.0 program: more on [fetchJSON]                           *)
(* ================================================================== *)

Section FetchResult.
Context (n : V2.net) (attempts : Z).
Context (Hreq : forall k, 1 <= k -> V2.newRequest_ok n k = true).

Lemma attempt_error_verdict (attempt : Z) (r : V2.doResult) :
  match r with
  | V2.DoErr msg => Some (ErrWrap "fetch" (ErrNew msg))
  | V2.DoResp code decodes => V2.onResponse attempts attempt code decodes
  end = verdict r.
Proof.
  destruct r as [msg|code decodes]; simpl; [reflexivity|].
  unfold V2.onResponse.
  destruct (negb (code =? V2.StatusOK)); [|reflexivity].
  now destruct (negb (V2.shouldRetryStatus code) || (attempt =? attempts)).
Qed.

(** The requests of a run are numbered without gap, and the run returns
    the verdict of the last one. *)
Lemma attemptLoop_last (fuel : nat) :
  forall (attempt : Z) (lastErr : option error),
    1 <= attempt <= attempts ->
    attempts - attempt + 1 <= Z.of_nat fuel ->
    let out := V2.attemptLoop n fuel attempts attempt lastErr in
    let m := attempt + Z.of_nat (requests (snd out)) - 1 in
    attempt <= m <= attempts /\
    fst out = verdict (V2.client_Do n m) /\
    (forall k, In (V2.Request k) (snd out) <-> attempt <= k <= m).
Proof.
  induction fuel as [|fuel IH]; intros attempt lastErr Ha Hfuel; [simpl in *; lia|].
  cbn [V2.attemptLoop].
  destruct (Z.leb_spec attempt attempts) as [Hle|Hgt]; [|lia]. cbn [negb].
  rewrite Hreq by lia. cbn [negb].
  rewrite attempt_error_verdict.
  assert (Hone : forall tail : list V2.event,
            requests tail = 0%nat -> (forall k, ~ In (V2.Request k) tail) ->
            forall r, r = verdict (V2.client_Do n attempt) ->
            let out := (r, V2.Request attempt :: tail) in
            let m := attempt + Z.of_nat (requests (snd out)) - 1 in
            attempt <= m <= attempts /\
            fst out = verdict (V2.client_Do n m) /\
            (forall k, In (V2.Request k) (snd out) <-> attempt <= k <= m)).
  { intros tail Ht Hno r Hr. cbn [fst snd requests]. rewrite Ht.
    replace (attempt + Z.of_nat 1 - 1) with attempt by lia.
    split_and!; [lia | lia | exact Hr |].
    intros k. split.
    - intros [[= <-]|H]; [lia|]. now apply Hno in H.
    - intros Hk. left. f_equal. lia. }
  destruct (verdict (V2.client_Do n attempt)) as [e|] eqn:Ev.
  2:{ apply Hone; [reflexivity | intros k [] | reflexivity]. }
  destruct (Z.eqb_spec attempt attempts) as [Heq|Hneq].
  { apply Hone; [reflexivity | intros k [] | reflexivity]. }
  destruct (V2.waitForRetry n attempt); cbn [negb].
  2:{ apply Hone; [reflexivity | | reflexivity].
      intros k [H|[]]. discriminate. }
  specialize (IH (attempt + 1) (Some e)).
  destruct (V2.attemptLoop n fuel attempts (attempt + 1) (Some e)) as [r tr].
  cbn [fst snd requests] in *. destruct IH as (IH1 & IH2 & IH3); [lia|lia|].
  replace (attempt + Z.of_nat (S (requests tr)) - 1)
    with (attempt + 1 + Z.of_nat (requests tr) - 1) by lia.
  split_and!; [lia | lia | exact IH2 |].
  intros k. split.
  - intros [[= <-]|[H|H]]; [lia|discriminate|]. apply IH3 in H. lia.
  - intros Hk. destruct (Z.eq_dec k attempt) as [->|Hne]; [now left|].
    right. right. apply IH3. lia.
Qed.

End FetchResult.

(** The sleeps of a run add up to at most the ceiling for each attempt
    after the first. *)
Lemma attemptLoop_slept (n : V2.net) (attempts : Z) (fuel : nat) :
  forall (attempt : Z) (lastErr : option error),
    attempt <= attempts ->
    0 <= slept (snd (V2.attemptLoop n fuel attempts attempt lastErr))
      <= V2.retryBackoffMax * (attempts - attempt).
Proof.
  assert (Hmax : 0 < V2.retryBackoffMax) by reflexivity.
  induction fuel as [|fuel IH]; intros attempt lastErr Ha; simpl; [nia|].
  destruct (Z.leb_spec attempt attempts) as [Hle|Hgt]; simpl; [|nia].
  destruct (V2.newRequest_ok n attempt); simpl; [|nia].
  destruct (match V2.client_Do n attempt with
            | V2.DoErr msg => Some (ErrWrap "fetch" (ErrNew msg))
            | V2.DoResp code decodes => V2.onResponse attempts attempt code decodes
            end) as [e|]; [|simpl; nia].
  destruct (Z.eqb_spec attempt attempts) as [Heq|Hneq]; [simpl; nia|].
  pose proof (backoffFor_capped attempt) as Hb.
  destruct (V2.waitForRetry n attempt); simpl; [|nia].
  specialize (IH (attempt + 1) (Some e)).
  destruct (V2.attemptLoop n fuel attempts (attempt + 1) (Some e)) as [r tr].
  simpl in *. specialize (IH ltac:(lia)). nia.
Qed.

(** X13: when every request can be built, [fetchJSON] makes the requests
    1, 2, ..., m without gap for some m between 1 and max(1, retries), and
    returns the verdict of the last one: nil exactly when the m-th answer is
    a 200 whose body decodes, the error of the m-th attempt otherwise. *)
Theorem fetchJSON_returns_last_verdict (n : V2.net) (retries : Z) :
  (forall k, 1 <= k -> V2.newRequest_ok n k = true) ->
  let m := Z.of_nat (requests (snd (V2.fetchJSON n retries))) in
  1 <= m <= Z.max 1 retries /\
  fst (V2.fetchJSON n retries) = verdict (V2.client_Do n m) /\
  (forall k, In (V2.Request k) (snd (V2.fetchJSON n retries)) <-> 1 <= k <= m) /\
  (fst (V2.fetchJSON n retries) = None <-> V2.client_Do n m = V2.DoResp 200 true).
Proof.
  intros Hreq m. subst m. rewrite fetchJSON_unfold.
  destruct (attemptLoop_last n (Z.max 1 retries) Hreq (Z.to_nat (Z.max 1 retries))
              1 None) as (H1 & H2 & H3); [lia|lia|].
  replace (1 + Z.of_nat (requests (snd (V2.attemptLoop n (Z.to_nat (Z.max 1 retries))
             (Z.max 1 retries) 1 None))) - 1)
    with (Z.of_nat (requests (snd (V2.attemptLoop n (Z.to_nat (Z.max 1 retries))
             (Z.max 1 retries) 1 None)))) in * by lia.
  split_and!; [lia | lia | exact H2 | exact H3 |].
  rewrite H2.
  destruct (V2.client_Do n _) as [msg|code decodes]; simpl; [split; discriminate|].
  unfold V2.StatusOK. destruct (Z.eqb_spec code 200) as [->|Hc]; simpl.
  - destruct decodes; simpl; split; congruence.
  - split; [discriminate|]. intros [= E]. congruence.
Qed.

Lemma fetchJSON_returns_last_verdict_witness :
  (forall k, 1 <= k -> V2.newRequest_ok Fx.net_bad_body k = true) /\
  fst (V2.fetchJSON Fx.net_bad_body 2) =
  verdict (V2.client_Do Fx.net_bad_body
             (Z.of_nat (requests (snd (V2.fetchJSON Fx.net_bad_body 2))))).
Proof.
  assert (H : forall k, 1 <= k -> V2.newRequest_ok Fx.net_bad_body k = true)
    by (intros; reflexivity).
  split; [exact H|].
  exact (proj1 (proj2 (fetchJSON_returns_last_verdict Fx.net_bad_body 2 H))).
Defined.

(** X14: the time [fetchJSON] spends sleeping is at most 2 s for each
    attempt after the first: at most 2 s * (max(1, retries) - 1) in all,
    and none at all for a retry count of 1 or less. *)
Theorem fetchJSON_sleep_budget (n : V2.net) (retries : Z) :
  0 <= slept (snd (V2.fetchJSON n retries))
    <= V2.retryBackoffMax * (Z.max 1 retries - 1) /\
  (retries <= 1 -> slept (snd (V2.fetchJSON n retries)) = 0).
Proof.
  rewrite fetchJSON_unfold.
  pose proof (attemptLoop_slept n (Z.max 1 retries) (Z.to_nat (Z.max 1 retries))
                1 None ltac:(lia)) as H.
  split; [exact H|].
  intros Hr. replace (Z.max 1 retries) with 1 in * by lia.
  change (V2.retryBackoffMax * (1 - 1)) with 0 in H. lia.
Qed.

(* ================================================================== *)
(** * The 0.2.0 program: the command line                              *)
(* ================================================================== *)

Section ParseArgs.
Context (L : golib) (P : parselib).

Lemma setTimeout_valid (opts : V2.options) (raw : string) :
  valid_options opts -> valid_options (fst (V2.setTimeout P opts raw)).
Proof.
  intros (Ht & Hr & Hf). unfold V2.setTimeout.
  destruct (time_ParseDuration P raw) as [dur|]; [|now split_and!].
  destruct (Z.leb_spec dur 0); simpl; split_and!; assumption || lia.
Qed.

Lemma setRetries_valid (opts : V2.options) (raw : string) :
  valid_options opts -> valid_options (fst (V2.setRetries P opts raw)).
Proof.
  intros (Ht & Hr & Hf). unfold V2.setRetries.
  destruct (strconv_Atoi P raw) as [value|]; [|now split_and!].
  destruct (Z.leb_spec value 0); simpl; split_and!; assumption || lia.
Qed.

(** The loop keeps the options valid, whether it ends with an error or
    not. *)
Lemma parseArgsLoop_valid (k : nat) :
  forall (args : list string) (opts : V2.options),
    (length args <= k)%nat ->
    valid_options opts -> valid_options (fst (V2.parseArgsLoop L P opts args)).
Proof.
  induction k as [|k IH]; intros args opts Hlen Hv.
  - destruct args; [exact Hv|simpl in Hlen; lia].
  - destruct args as [|arg rest]; [exact Hv|]. simpl in Hlen. simpl.
    assert (Hrest : forall o, valid_options o ->
              valid_options (fst (V2.parseArgsLoop L P o rest))).
    { intros o Ho. apply IH; [lia|exact Ho]. }
    destruct Hv as (Ht & Hr & Hf).
    destruct (String.eqb arg "--details" || strings_EqualFold L arg V2.detailsArg).
    { apply Hrest. now split_and!. }
    destruct (String.eqb arg V2.resolvedArg). { apply Hrest. now split_and!. }
    destruct (String.eqb arg V2.jsonArg).
    { apply Hrest. split_and!; [assumption..|now right]. }
    destruct (String.eqb arg V2.versionArg). { apply Hrest. now split_and!. }
    destruct (String.eqb arg "-h" || String.eqb arg "--help"); [now split_and!|].
    destruct (String.eqb arg V2.timeoutArg).
    { destruct rest as [|value rest']; [now split_and!|].
      pose proof (setTimeout_valid opts value ltac:(now split_and!)) as Hs.
      destruct (V2.setTimeout P opts value) as [opts' [err|]]; [exact Hs|].
      apply IH; [simpl in Hlen; lia|exact Hs]. }
    destruct (strings_HasPrefix arg "--timeout=").
    { pose proof (setTimeout_valid opts (strings_TrimPrefix arg "--timeout=")
                    ltac:(now split_and!)) as Hs.
      destruct (V2.setTimeout P opts _) as [opts' [err|]]; [exact Hs|].
      now apply Hrest. }
    destruct (String.eqb arg V2.retriesArg).
    { destruct rest as [|value rest']; [now split_and!|].
      pose proof (setRetries_valid opts value ltac:(now split_and!)) as Hs.
      destruct (V2.setRetries P opts value) as [opts' [err|]]; [exact Hs|].
      apply IH; [simpl in Hlen; lia|exact Hs]. }
    destruct (strings_HasPrefix arg "--retries=").
    { pose proof (setRetries_valid opts (strings_TrimPrefix arg "--retries=")
                    ltac:(now split_and!)) as Hs.
      destruct (V2.setRetries P opts _) as [opts' [err|]]; [exact Hs|].
      now apply Hrest. }
    now split_and!.
Qed.

(** Arguments that parse without error can be followed by more: the loop
    goes on from the options they gave. *)
Lemma parseArgsLoop_app (k : nat) :
  forall (pre rest : list string) (opts : V2.options),
    (length pre <= k)%nat ->
    snd (V2.parseArgsLoop L P opts pre) = None ->
    V2.parseArgsLoop L P opts (pre ++ rest) =
    V2.parseArgsLoop L P (fst (V2.parseArgsLoop L P opts pre)) rest.
Proof.
  induction k as [|k IH]; intros pre rest opts Hlen Hok.
  - destruct pre; [reflexivity|simpl in Hlen; lia].
  - destruct pre as [|arg pre]; [reflexivity|]. simpl in Hlen. simpl in *.
    assert (Hpre : forall o, snd (V2.parseArgsLoop L P o pre) = None ->
              V2.parseArgsLoop L P o (pre ++ rest) =
              V2.parseArgsLoop L P (fst (V2.parseArgsLoop L P o pre)) rest).
    { intros o Ho. apply IH; [lia|exact Ho]. }
    destruct (String.eqb arg "--details" || strings_EqualFold L arg V2.detailsArg);
      [now apply Hpre|].
    destruct (String.eqb arg V2.resolvedArg); [now apply Hpre|].
    destruct (String.eqb arg V2.jsonArg); [now apply Hpre|].
    destruct (String.eqb arg V2.versionArg); [now apply Hpre|].
    destruct (String.eqb arg "-h" || String.eqb arg "--help"); [discriminate|].
    destruct (String.eqb arg V2.timeoutArg).
    { destruct pre as [|value pre']; [discriminate|]. simpl.
      destruct (V2.setTimeout P opts value) as [opts' [err|]]; [discriminate|].
      apply IH; [simpl in Hlen; lia|exact Hok]. }
    destruct (strings_HasPrefix arg "--timeout=").
    { destruct (V2.setTimeout P opts _) as [opts' [err|]]; [discriminate|].
      now apply Hpre. }
    destruct (String.eqb arg V2.retriesArg).
    { destruct pre as [|value pre']; [discriminate|]. simpl.
      destruct (V2.setRetries P opts value) as [opts' [err|]]; [discriminate|].
      apply IH; [simpl in Hlen; lia|exact Hok]. }
    destruct (strings_HasPrefix arg "--retries=").
    { destruct (V2.setRetries P opts _) as [opts' [err|]]; [discriminate|].
      now apply Hpre. }
    discriminate.
Qed.

End ParseArgs.

(** [TestParseArgs] of the repository. *)
Example TestParseArgs :
  V2.parseArgs stdgo stdparse [] =
    (V2.Options false false V2.defaultTimeout 1 V2.outputText false, None) /\
  V2.parseArgs stdgo stdparse Fx.test_args =
    (V2.Options true false (20 * time.Second) 3 V2.outputJSON false, None) /\
  fst (V2.parseArgs stdgo stdparse ["--version"]) =
    V2.Options false false V2.defaultTimeout 1 V2.outputText true /\
  snd (V2.parseArgs stdgo stdparse ["--timeout"]) <> None.
Proof. split_and!; try reflexivity. discriminate. Qed.

(** X15: whatever the arguments, and whether it reports an error or not,
    [parseArgs] returns options with a timeout above zero, a retry count
    above zero and the output format "text" or "json". *)
Theorem parseArgs_options_valid (L : golib) (P : parselib) (args : list string) :
  valid_options (fst (V2.parseArgs L P args)).
Proof.
  assert (Hd : valid_options
            (V2.Options false false V2.defaultTimeout V2.defaultRetries
               V2.outputText false)).
  { split_and!; [reflexivity | reflexivity | now left]. }
  unfold V2.parseArgs. cbv zeta.
  destruct (length args =? 0)%nat; [exact Hd|].
  now apply (parseArgsLoop_valid L P (length args)).
Qed.

(** X16: a help flag after arguments that parse without error ends the
    parsing with the help error and the options read so far, whatever
    follows it. *)
Theorem parseArgs_help_after_valid (L : golib) (P : parselib)
    (pre post : list string) (h : string) :
  snd (V2.parseArgs L P pre) = None ->
  h = "-h" \/ h = "--help" ->
  strings_EqualFold L h V2.detailsArg = false ->
  V2.parseArgs L P (pre ++ h :: post) =
  (fst (V2.parseArgs L P pre), Some V2.errHelp).
Proof.
  intros Hok Hh Hfold.
  assert (Hhelp : forall o, V2.parseArgsLoop L P o (h :: post) = (o, Some V2.errHelp)).
  { intros o. simpl. rewrite Hfold.
    destruct Hh as [-> | ->]; reflexivity. }
  unfold V2.parseArgs in *. cbv zeta in *.
  destruct pre as [|a pre]; [exact (Hhelp _)|].
  change (length (a :: pre) =? 0)%nat with false in Hok.
  change (length (a :: pre) =? 0)%nat with false.
  replace (length ((a :: pre) ++ h :: post) =? 0)%nat with false
    by (rewrite length_app; simpl; reflexivity).
  cbv iota in *.
  rewrite (parseArgsLoop_app L P (length (a :: pre))) by (reflexivity || exact Hok).
  apply Hhelp.
Qed.

Lemma parseArgs_help_after_valid_witness :
  snd (V2.parseArgs stdgo stdparse Fx.test_args) = None /\
  V2.parseArgs stdgo stdparse (Fx.test_args ++ "--help" :: ["--bogus"]) =
  (V2.Options true false (20 * time.Second) 3 V2.outputJSON false, Some V2.errHelp).
Proof.
  split; [reflexivity|].
  apply (parseArgs_help_after_valid stdgo stdparse Fx.test_args ["--bogus"] "--help").
  - reflexivity.
  - now right.
  - reflexivity.
Defined.

(* ================================================================== *)
(** * The 0.2.0 program: [run]                                         *)
(* ================================================================== *)

Section Run.
Context (L : golib) (E : V2.errlib) (w : V2.site) (opts : V2.options).

(** [classifyError] never turns an error into [nil]. *)
Lemma classifyError_keeps_failure (err : error) :
  exists err', V2.classifyError E (Some err) opts = Some err'.
Proof.
  unfold V2.classifyError.
  destruct (V2.is_DeadlineExceeded E err || V2.is_Canceled E err); [eauto|].
  destruct (V2.as_netTimeout E err); [eauto|].
  destruct (V2.as_SyntaxError E err); [eauto|].
  destruct (V2.as_UnmarshalTypeError E err); eauto.
Qed.

Lemma returnClassified_fails {A : Type} (err : error) (log : list endpoint) :
  exists err', V2.returnClassified (A := A) E err opts log = (Err err', log).
Proof.
  unfold V2.returnClassified.
  destruct (classifyError_keeps_failure err) as [err' ->]. now exists err'.
Qed.

(** One run, by the outcome of each fetch. *)
Lemma run_cases :
  let needs := V2.showDetails opts || V2.showResolved opts ||
               String.eqb (V2.outputFormat opts) V2.outputJSON in
  let render data : V2.rendering :=
    if String.eqb (V2.outputFormat opts) V2.outputJSON
    then V2.RenderJSON data else V2.RenderText data opts in
  let comps := V2.filterComponents L (V2.status_payload w) in
  let active := V2.sortIncidents L (V2.unresolved_payload w) in
  let resolved := V2.filterResolved L (V2.sortIncidents L (V2.all_payload w)) in
  match fst (V2.fetchJSON (V2.status_net w) (V2.retries opts)) with
  | Some err => exists err', V2.run L E w opts [] = (Err err', [componentsURL])
  | None =>
      match comps with
      | [] => V2.run L E w opts [] =
              (Err (ErrNew "github status: no components returned"), [componentsURL])
      | _ :: _ =>
          if needs then
            match fst (V2.fetchJSON (V2.unresolved_net w) (V2.retries opts)) with
            | Some err => exists err', V2.run L E w opts [] =
                                       (Err err', [componentsURL; unresolvedURL])
            | None =>
                if V2.showResolved opts then
                  match fst (V2.fetchJSON (V2.all_net w) (V2.retries opts)) with
                  | Some err =>
                      exists err', V2.run L E w opts [] =
                        (Err err', [componentsURL; unresolvedURL; incidentsURL])
                  | None =>
                      V2.run L E w opts [] =
                      (Ok (inl (render (V2.Report comps active resolved))),
                       [componentsURL; unresolvedURL; incidentsURL])
                  end
                else
                  V2.run L E w opts [] =
                  (Ok (inl (render (V2.Report comps active []))),
                   [componentsURL; unresolvedURL])
            end
          else
            V2.run L E w opts [] =
            (Ok (inl (render (V2.Report comps [] []))), [componentsURL])
      end
  end.
Proof.
  cbv zeta. unfold V2.run, V2.fetchComponents, V2.fetchIncidents.
  destruct (fst (V2.fetchJSON (V2.status_net w) (V2.retries opts))) as [err|].
  { apply returnClassified_fails. }
  cbn [V2.Components].
  destruct (V2.filterComponents L (V2.status_payload w)) as [|c cs]; [reflexivity|].
  cbn [length Nat.eqb].
  destruct (V2.showDetails opts || V2.showResolved opts ||
            String.eqb (V2.outputFormat opts) V2.outputJSON).
  2:{ now destruct (String.eqb (V2.outputFormat opts) V2.outputJSON). }
  destruct (fst (V2.fetchJSON (V2.unresolved_net w) (V2.retries opts))) as [err|].
  { apply returnClassified_fails. }
  destruct (V2.showResolved opts).
  2:{ now destruct (String.eqb (V2.outputFormat opts) V2.outputJSON). }
  destruct (fst (V2.fetchJSON (V2.all_net w) (V2.retries opts))) as [err|].
  { apply returnClassified_fails. }
  now destruct (String.eqb (V2.outputFormat opts) V2.outputJSON).
Qed.

End Run.

(** Name the error of a failed run. *)
Ltac open_failure H :=
  lazymatch type of H with
  | ex _ => let e := fresh "err'" in destruct H as [e H]
  | _ => idtac
  end.

(** X17: once the components are fetched and some remain after filtering,
    [run] fetches the unresolved incidents exactly when the details flag,
    the resolved flag or the JSON format is set, and it fetches the full
    incident list exactly when the resolved flag is set and the unresolved
    fetch succeeded; the JSON format alone does not ask for it. *)
Theorem run_fetch_rules (L : golib) (E : V2.errlib) (w : V2.site) (opts : V2.options) :
  fst (V2.fetchJSON (V2.status_net w) (V2.retries opts)) = None ->
  V2.filterComponents L (V2.status_payload w) <> [] ->
  let log := snd (V2.run L E w opts []) in
  (In unresolvedURL log <->
   V2.showDetails opts = true \/ V2.showResolved opts = true \/
   V2.outputFormat opts = V2.outputJSON) /\
  (In incidentsURL log <->
   V2.showResolved opts = true /\
   fst (V2.fetchJSON (V2.unresolved_net w) (V2.retries opts)) = None).
Proof.
  intros Hc Hne log. subst log.
  pose proof (run_cases L E w opts) as H. cbv zeta in H. rewrite Hc in H.
  destruct (V2.filterComponents L (V2.status_payload w)) as [|c cs]; [congruence|].
  destruct (V2.showDetails opts), (V2.showResolved opts),
    (String.eqb_spec (V2.outputFormat opts) V2.outputJSON);
    cbn [orb] in H;
    destruct (fst (V2.fetchJSON (V2.unresolved_net w) (V2.retries opts)));
    try destruct (fst (V2.fetchJSON (V2.all_net w) (V2.retries opts)));
    open_failure H; rewrite H; simpl;
    intuition (congruence || discriminate).
Qed.

Lemma run_fetch_rules_witness :
  fst (V2.fetchJSON (V2.status_net Fx.site0) (V2.retries Fx.opts_json)) = None /\
  (In incidentsURL (snd (V2.run stdgo Fx.errs_none Fx.site0 Fx.opts_json [])) <->
   V2.showResolved Fx.opts_json = true /\
   fst (V2.fetchJSON (V2.unresolved_net Fx.site0) (V2.retries Fx.opts_json)) = None).
Proof.
  split; [reflexivity|].
  refine (proj2 (run_fetch_rules stdgo Fx.errs_none Fx.site0 Fx.opts_json eq_refl _)).
  vm_compute. discriminate.
Defined.

(** X18: what [run] renders.  The components are the filtered feed, not
    empty; Active is the sorted unresolved feed when incident data is
    needed; Resolved is [filterResolved] of the sorted full list when the
    resolved flag is set and empty otherwise, also in JSON format, and never
    holds more than 5 incidents; the JSON renderer is used exactly for the
    format "json". *)
Theorem run_renders (L : golib) (E : V2.errlib) (w : V2.site) (opts : V2.options)
    (r : V2.rendering) :
  fst (V2.run L E w opts []) = Ok (inl r) ->
  let data := rendered_data r in
  V2.Components data = V2.filterComponents L (V2.status_payload w) /\
  V2.Components data <> [] /\
  V2.ActiveIncidents data =
    (if V2.showDetails opts || V2.showResolved opts ||
        String.eqb (V2.outputFormat opts) V2.outputJSON
     then V2.sortIncidents L (V2.unresolved_payload w) else []) /\
  V2.ResolvedIncidents data =
    (if V2.showResolved opts
     then V2.filterResolved L (V2.sortIncidents L (V2.all_payload w)) else []) /\
  (length (V2.ResolvedIncidents data) <= 5)%nat /\
  r = (if String.eqb (V2.outputFormat opts) V2.outputJSON
       then V2.RenderJSON data else V2.RenderText data opts).
Proof.
  pose proof (run_cases L E w opts) as H. cbv zeta in H.
  assert (Hcap : (length (V2.filterResolved L
                    (V2.sortIncidents L (V2.all_payload w))) <= 5)%nat).
  { rewrite filterResolved_take, length_take. unfold V2.maxResolvedIncidents. lia. }
  destruct (fst (V2.fetchJSON (V2.status_net w) (V2.retries opts)));
    [destruct H as [err' ->]; discriminate|].
  destruct (V2.filterComponents L (V2.status_payload w)) as [|c cs];
    [rewrite H; discriminate|].
  destruct (V2.showDetails opts), (V2.showResolved opts),
    (String.eqb (V2.outputFormat opts) V2.outputJSON);
    cbn [orb] in *;
    destruct (fst (V2.fetchJSON (V2.unresolved_net w) (V2.retries opts)));
    try destruct (fst (V2.fetchJSON (V2.all_net w) (V2.retries opts)));
    open_failure H; rewrite H; try discriminate; intros [= <-]; cbn [rendered_data V2.Components V2.ActiveIncidents
                                     V2.ResolvedIncidents length];
    split_and!; try reflexivity; try discriminate; try exact Hcap; lia.
Qed.

Lemma run_renders_witness :
  exists r : V2.rendering,
    fst (V2.run stdgo Fx.errs_none Fx.site0 Fx.opts_json []) = Ok (inl r) /\
    V2.ResolvedIncidents (rendered_data r) = [].
Proof.
  eexists. split; [reflexivity|].
  exact (proj1 (proj2 (proj2 (proj2
    (run_renders stdgo Fx.errs_none Fx.site0 Fx.opts_json _ eq_refl))))).
Defined.

(** X19: [run] renders exactly when the components are fetched, some
    remain after filtering, and every fetch it issues succeeds; otherwise it
    returns an error: it never returns [nil] without having rendered. *)
Theorem run_all_or_nothing (L : golib) (E : V2.errlib) (w : V2.site)
    (opts : V2.options) :
  let needs := V2.showDetails opts || V2.showResolved opts ||
               String.eqb (V2.outputFormat opts) V2.outputJSON in
  fst (V2.run L E w opts []) <> Ok (inr tt) /\
  ((exists r, fst (V2.run L E w opts []) = Ok (inl r)) <->
   fst (V2.fetchJSON (V2.status_net w) (V2.retries opts)) = None /\
   V2.filterComponents L (V2.status_payload w) <> [] /\
   (needs = true ->
    fst (V2.fetchJSON (V2.unresolved_net w) (V2.retries opts)) = None) /\
   (V2.showResolved opts = true ->
    fst (V2.fetchJSON (V2.all_net w) (V2.retries opts)) = None)).
Proof.
  pose proof (run_cases L E w opts) as H. cbv zeta in *.
  destruct (fst (V2.fetchJSON (V2.status_net w) (V2.retries opts))).
  { destruct H as [err' ->]. simpl. split; [discriminate|].
    split; [intros [r Hr]; discriminate | intros [Hc _]; discriminate]. }
  destruct (V2.filterComponents L (V2.status_payload w)) as [|c cs].
  { rewrite H. simpl. split; [discriminate|].
    split; [intros [r Hr]; discriminate | intros (_ & Hne & _); congruence]. }
  destruct (V2.showDetails opts), (V2.showResolved opts),
    (String.eqb (V2.outputFormat opts) V2.outputJSON);
    cbn [orb] in *;
    destruct (fst (V2.fetchJSON (V2.unresolved_net w) (V2.retries opts)));
    try destruct (fst (V2.fetchJSON (V2.all_net w) (V2.retries opts)));
    open_failure H; rewrite H; simpl;
    (split; [discriminate|]);
    (split;
     [ intros [r Hr]; try discriminate; split_and!; congruence
     | intros (_ & _ & Ha & Hr);
       try (specialize (Ha eq_refl); discriminate);
       try (specialize (Hr eq_refl); discriminate); eauto ]).
Qed.

(* ================================================================== *)
(** * The first program: [latestUpdate]                                *)
(* ================================================================== *)

Lemma latestLoop_newest (L : golib) (rest : list incidentUpdate) :
  forall (latest : incidentUpdate) (latestTime : Time),
    latestTime = stamp (V1.parseTime L) latest ->
    let r := V1.latestLoop L latest latestTime rest in
    (r = latest \/ In r rest) /\
    latestTime <= stamp (V1.parseTime L) r /\
    (forall u t, In u rest -> V1.parseTime L (upd_CreatedAt u) = Some t ->
       t <= stamp (V1.parseTime L) r).
Proof.
  induction rest as [|upd rest IH]; intros latest latestTime Hl; simpl.
  - split_and!; [now left | lia | intros u t []].
  - destruct (V1.parseTime L (upd_CreatedAt upd)) as [tu|] eqn:Eu.
    + unfold time.After. destruct (Z.ltb_spec latestTime tu) as [Hlt|Hge].
      * destruct (IH upd tu) as (H1 & H2 & H3).
        { unfold stamp. now rewrite Eu. }
        split_and!.
        -- destruct H1 as [->|H1]; right; [now left|now right].
        -- lia.
        -- intros u t [<-|Hu] Hp; [|now apply (H3 u)].
           rewrite Eu in Hp. injection Hp as <-. exact H2.
      * destruct (IH latest latestTime Hl) as (H1 & H2 & H3).
        split_and!.
        -- destruct H1 as [->|H1]; [now left|right; now right].
        -- exact H2.
        -- intros u t [<-|Hu] Hp; [|now apply (H3 u)].
           rewrite Eu in Hp. injection Hp as <-. lia.
    + destruct (IH latest latestTime Hl) as (H1 & H2 & H3).
      split_and!.
      * destruct H1 as [->|H1]; [now left|right; now right].
      * exact H2.
      * intros u t [<-|Hu] Hp; [congruence|now apply (H3 u)].
Qed.

(** X20: [latestUpdate] of an empty list is the zero update; of any other
    list it is one of the updates, and no update of the list has a parsed
    timestamp above the timestamp it stands for (its parsed timestamp, or the
    zero Time when that does not parse). *)
Theorem latestUpdate_newest (L : golib) (updates : list incidentUpdate) :
  (updates = [] -> V1.latestUpdate L updates = IncidentUpdate "" "" "") /\
  (updates <> [] -> In (V1.latestUpdate L updates) updates) /\
  (forall u t, In u updates -> V1.parseTime L (upd_CreatedAt u) = Some t ->
     t <= stamp (V1.parseTime L) (V1.latestUpdate L updates)).
Proof.
  destruct updates as [|first rest].
  - split_and!; [reflexivity | congruence | intros u t []].
  - assert (Hs : match V1.parseTime L (upd_CreatedAt first) with
                 | Some t => t
                 | None => time.zero
                 end = stamp (V1.parseTime L) first).
    { unfold stamp. now destruct (V1.parseTime L (upd_CreatedAt first)). }
    destruct (latestLoop_newest L rest first _ Hs) as (H1 & H2 & H3).
    cbn [V1.latestUpdate]. split_and!.
    + discriminate.
    + intros _. destruct H1 as [->|H1]; [now left|now right].
    + intros u t [<-|Hu] Hp; [|now apply (H3 u)].
      rewrite Hs in H2. unfold stamp in H2 at 1. rewrite Hp in H2. exact H2.
Qed.

(* ================================================================== *)
(** * The order of the components                                      *)
(* ================================================================== *)

Lemma sorted_lowerNames (L : golib) (l : list component) :
  StronglySorted
    (fun a b => String.leb (strings_ToLower L (comp_Name a))
                           (strings_ToLower L (comp_Name b)) = true) l ->
  StronglySorted (fun a b => String.leb a b = true) (lowerNames L l).
Proof.
  unfold lowerNames.
  induction 1 as [|x l Hl IH Hx]; simpl; constructor; [assumption|].
  rewrite List.Forall_forall in *. intros k Hk.
  apply in_map_iff in Hk as (y & <- & Hy). exact (Hx y Hy).
Qed.

(** X21: the order in which the components are listed does not depend on
    the order of the feed, nor on how [sort.Slice] treats ties: for two
    feeds that are permutations of each other, [filterComponents] yields the
    same sequence of lower-cased names. *)
Theorem filterComponents_names_determined (L : golib) (HL : sort_contract L)
    (l l' : list component) :
  Permutation l l' ->
  lowerNames L (V3.filterComponents L l) = lowerNames L (V3.filterComponents L l').
Proof.
  intros Hp.
  assert (Hsorted : forall m,
    StronglySorted (fun a b => String.leb a b = true)
      (lowerNames L (V3.filterComponents L m))).
  { intros m. apply sorted_lowerNames. unfold V3.filterComponents.
    eapply StronglySorted_iff;
      [|apply (sort_sorted L HL), strict_weak_component_less].
    intros a b. unfold V3.component_less. rewrite string_leb_ltb.
    now rewrite negb_true_iff. }
  apply (sorted_perm_unique (fun a b => String.leb a b = true) String.leb_antisym);
    try apply Hsorted.
  unfold lowerNames. apply Permutation_map. unfold V3.filterComponents.
  rewrite <- (sort_perm L HL _ _ _), <- (sort_perm L HL _ _ _).
  clear -Hp. induction Hp as [|x l l' _ IH|x y l|l l' l'' _ IH1 _ IH2]; simpl.
  - constructor.
  - destruct (V3.keep_component L x); [constructor|]; assumption.
  - destruct (V3.keep_component L x), (V3.keep_component L y);
      try apply perm_swap; reflexivity.
  - etransitivity; eassumption.
Qed.

Lemma filterComponents_names_determined_witness :
  sort_contract stdgo /\
  lowerNames stdgo (V3.filterComponents stdgo Fx.feed_components) =
  lowerNames stdgo (V3.filterComponents stdgo (rev Fx.feed_components)).
Proof.
  split; [exact stdgo_contract|].
  apply (filterComponents_names_determined stdgo stdgo_contract).
  apply Permutation_rev.
Defined.
